(** * Aristotle: the step-validation pipeline of [src/services/aiValidation.ts]

    A shallow embedding of [AIValidationService] (heuristic validator,
    response normaliser, orchestrator) and the properties of its
    specification.

    JavaScript strings are sequences of UTF-16 code units, regular
    expressions are run by a backtracking matcher written after the
    continuation semantics of ECMA-262 (22.2.2), and the ECMAScript
    built-ins whose exact behaviour the properties do not depend on
    ([JSON.parse], number/string conversions, [toLowerCase], the rounding of
    binary64 arithmetic) are Section variables. *)

From Stdlib Require Import List Bool Arith NArith ZArith QArith Qround Qabs Lia.
From Stdlib Require Import Ascii String.
Import ListNotations.

Set Implicit Arguments.
Set Warnings "-register-all".

(* ================================================================== *)
(** * JavaScript strings *)
(* ================================================================== *)

Module JsString.

(** A string is the list of its UTF-16 code units. *)
Definition unit16 := N.
Definition jsstring := list unit16.

(** ** Source literals

    The TypeScript source is UTF-8; a literal of the source is written here
    as the same text and decoded to the code units the JavaScript engine
    holds. *)

Definition utf16_of_codepoint (cp : N) : jsstring :=
  if (cp <? 65536)%N then [cp]
  else let v := (cp - 65536)%N in
       [(55296 + N.shiftr v 10)%N; (56320 + N.land v 1023)%N].

Definition cont (a : ascii) : N := N.land (N_of_ascii a) 63.

Fixpoint utf16 (s : string) : jsstring :=
  match s with
  | EmptyString => []
  | String a s1 =>
    let b := N_of_ascii a in
    if (b <? 128)%N then b :: utf16 s1
    else if (b <? 224)%N then
      match s1 with
      | String a1 s2 =>
        utf16_of_codepoint (N.land b 31 * 64 + cont a1) ++ utf16 s2
      | _ => [65533%N]
      end
    else if (b <? 240)%N then
      match s1 with
      | String a1 (String a2 s3) =>
        utf16_of_codepoint (N.land b 15 * 4096 + cont a1 * 64 + cont a2)
          ++ utf16 s3
      | _ => [65533%N]
      end
    else
      match s1 with
      | String a1 (String a2 (String a3 s4)) =>
        utf16_of_codepoint
          (N.land b 7 * 262144 + cont a1 * 4096 + cont a2 * 64 + cont a3)
          ++ utf16 s4
      | _ => [65533%N]
      end
  end.

Definition chr (a : ascii) : unit16 := N_of_ascii a.

(** The double quote, U+0022. *)
Definition dq : unit16 := 34%N.

Definition eqb (s t : jsstring) : bool :=
  if list_eq_dec N.eq_dec s t then true else false.

(** ** Character classes of ECMA-262 *)

(** [\d] *)
Definition isDigit (c : unit16) : bool := ((48 <=? c) && (c <=? 57))%N.

(** WhiteSpace and LineTerminator: the set of [\s] and of [trim]. *)
Definition isSpace (c : unit16) : bool :=
  ((9 <=? c) && (c <=? 13) || (c =? 32) || (c =? 160) || (c =? 5760)
   || (8192 <=? c) && (c <=? 8202) || (c =? 8232) || (c =? 8233)
   || (c =? 8239) || (c =? 8287) || (c =? 12288) || (c =? 65279))%N.

Definition isUpperAscii (c : unit16) : bool := ((65 <=? c) && (c <=? 90))%N.
Definition isLowerAscii (c : unit16) : bool := ((97 <=? c) && (c <=? 122))%N.
Definition isLetter (c : unit16) : bool := isUpperAscii c || isLowerAscii c.

Definition lowerAscii (c : unit16) : unit16 :=
  if isUpperAscii c then (c + 32)%N else c.
Definition upperAscii (c : unit16) : unit16 :=
  if isLowerAscii c then (c - 32)%N else c.

(** ** String.prototype methods *)

Fixpoint trimStart (s : jsstring) : jsstring :=
  match s with
  | c :: s' => if isSpace c then trimStart s' else s
  | [] => []
  end.

Definition trimEnd (s : jsstring) : jsstring := rev (trimStart (rev s)).

Definition trim (s : jsstring) : jsstring := trimEnd (trimStart s).

Fixpoint startsWith (p s : jsstring) : bool :=
  match p, s with
  | [], _ => true
  | a :: p', b :: s' => (a =? b)%N && startsWith p' s'
  | _ :: _, [] => false
  end.

Fixpoint includes (s p : jsstring) : bool :=
  startsWith p s ||
  match s with
  | [] => false
  | _ :: s' => includes s' p
  end.

(** [s.substring(0, n)] for a literal [n]. *)
Definition substring0 (n : nat) (s : jsstring) : jsstring := firstn n s.

(** [s.split(sep)] for a non-empty string separator. *)
Fixpoint split_go (fuel : nat) (sep : jsstring) (cur s : jsstring)
  : list jsstring :=
  match fuel with
  | O => [rev cur]
  | S f =>
    match s with
    | [] => [rev cur]
    | c :: s' =>
      if startsWith sep s
      then rev cur :: split_go f sep [] (skipn (List.length sep) s)
      else split_go f sep (c :: cur) s'
    end
  end.

Definition split (s sep : jsstring) : list jsstring :=
  split_go (S (List.length s)) sep [] s.

(** [arr.join(sep)] *)
Fixpoint join (sep : jsstring) (l : list jsstring) : jsstring :=
  match l with
  | [] => []
  | [x] => x
  | x :: l' => x ++ sep ++ join sep l'
  end.

(** Decimal numeral of a natural number, as in a template literal. *)
Fixpoint digits_go (fuel : nat) (n : N) (acc : jsstring) : jsstring :=
  match fuel with
  | O => acc
  | S f =>
    let acc' := (48 + n mod 10)%N :: acc in
    if (n <? 10)%N then acc' else digits_go f (n / 10)%N acc'
  end.

Definition N_to_string (n : N) : jsstring :=
  digits_go (S (N.to_nat (N.log2 n))) n [].

Definition Z_to_string (z : Z) : jsstring :=
  match z with
  | Zneg p => chr "-" :: N_to_string (Npos p)
  | _ => N_to_string (Z.to_N z)
  end.

(** Value of a run of decimal digits. *)
Definition digits_value (s : jsstring) : N :=
  fold_left (fun acc c => (acc * 10 + (c - 48))%N) s 0%N.

End JsString.
Import JsString.


(* ================================================================== *)
(** * Regular expressions *)
(* ================================================================== *)

Module Regex.

Definition charset := unit16 -> bool.

(** The pattern syntax the source uses: characters and classes, sequence,
    alternation, greedy star, capture groups, a back-reference and the two
    assertions. *)
Inductive regex :=
| Empty
| Char (cs : charset)
| Seq (r1 r2 : regex)
| Alt (r1 r2 : regex)
| Star (r : regex)
| Group (n : nat) (r : regex)
| BackRef (n : nat)
| Bol
| Eol.

Definition Plus (r : regex) : regex := Seq r (Star r).
Definition Opt (r : regex) : regex := Alt r Empty.

Fixpoint seq (rs : list regex) : regex :=
  match rs with
  | [] => Empty
  | [r] => r
  | r :: rs' => Seq r (seq rs')
  end.

(** Classes *)
Definition one (a : ascii) : charset := fun c => (c =? chr a)%N.
Definition unit (u : unit16) : charset := fun c => (c =? u)%N.
Definition range (a b : ascii) : charset :=
  fun c => ((chr a <=? c) && (c <=? chr b))%N.
Definition oneOf (s : string) : charset :=
  fun c => existsb (N.eqb c) (utf16 s).
Definition union (p q : charset) : charset := fun c => p c || q c.
Definition negate (p : charset) : charset := fun c => negb (p c).
Definition anyUnit : charset := fun _ => true.

(** Atoms *)
Definition ch (a : ascii) : regex := Char (one a).
Definition digit : regex := Char isDigit.
Definition space : regex := Char isSpace.
Definition lit (s : string) : regex := seq (map (fun u => Char (unit u)) (utf16 s)).

(** A regular expression object: pattern and the flags [i] and [g]. *)
Record RegExp := mkRegExp {
  pattern : regex;
  ignoreCase : bool;
  global : bool
}.

Definition re (r : list regex) : RegExp := mkRegExp (seq r) false false.
Definition re_g (r : list regex) : RegExp := mkRegExp (seq r) false true.
Definition re_i (r : list regex) : RegExp := mkRegExp (seq r) true false.

(** ** Matching (ECMA-262 22.2.2: matchers take a state and a continuation) *)

Record MatchState := mkState {
  endIndex : nat;
  rest : jsstring;
  captures : list (nat * jsstring)
}.

Definition Continuation := MatchState -> option MatchState.

Fixpoint capture (n : nat) (caps : list (nat * jsstring)) : option jsstring :=
  match caps with
  | [] => None
  | (k, v) :: caps' => if Nat.eqb k n then Some v else capture n caps'
  end.

(** Canonicalize without the [u] flag maps a code unit to its upper case;
    a class or character matches when it has a member with the same
    canonical form. *)
Definition charMatches (ic : bool) (cs : charset) (c : unit16) : bool :=
  cs c || (ic && (cs (upperAscii c) || cs (lowerAscii c))).

Fixpoint unitsMatch (ic : bool) (p s : jsstring) : bool :=
  match p, s with
  | [], _ => true
  | a :: p', b :: s' => charMatches ic (unit a) b && unitsMatch ic p' s'
  | _ :: _, [] => false
  end.

Definition advance (k : nat) (x : MatchState) : MatchState :=
  mkState (endIndex x + k) (skipn k (rest x)) (captures x).

(** RepeatMatcher for a greedy star: one more iteration of [body] is tried
    first, and an iteration that consumes nothing fails; [fuel] bounds the
    number of iterations by the length of the remaining input. *)
Fixpoint repeatMatcher (body : MatchState -> Continuation -> option MatchState)
  (c : Continuation) (fuel : nat) (x : MatchState) {struct fuel}
  : option MatchState :=
  match fuel with
  | O => c x
  | S fuel' =>
    match body x (fun y => if Nat.eqb (endIndex y) (endIndex x) then None
                           else repeatMatcher body c fuel' y) with
    | Some z => Some z
    | None => c x
    end
  end.

Fixpoint m (ic : bool) (r : regex) (x : MatchState) (c : Continuation)
  {struct r} : option MatchState :=
  match r with
  | Empty => c x
  | Char cs =>
    match rest x with
    | u :: _ => if charMatches ic cs u then c (advance 1 x) else None
    | [] => None
    end
  | Seq r1 r2 => m ic r1 x (fun y => m ic r2 y c)
  | Alt r1 r2 =>
    match m ic r1 x c with
    | Some z => Some z
    | None => m ic r2 x c
    end
  | Star r1 => repeatMatcher (m ic r1) c (S (List.length (rest x))) x
  | Group n r1 =>
    m ic r1 x (fun y =>
      c (mkState (endIndex y) (rest y)
           ((n, firstn (endIndex y - endIndex x) (rest x)) :: captures y)))
  | BackRef n =>
    match capture n (captures x) with
    | None => c x
    | Some s =>
      if unitsMatch ic s (rest x) then c (advance (List.length s) x) else None
    end
  | Bol => if Nat.eqb (endIndex x) 0 then c x else None
  | Eol => match rest x with [] => c x | _ :: _ => None end
  end.

(** Patterns without capture groups. *)
Fixpoint groupFree (r : regex) : bool :=
  match r with
  | Seq r1 r2 | Alt r1 r2 => groupFree r1 && groupFree r2
  | Star r1 => groupFree r1
  | Group _ _ => false
  | _ => true
  end.

(** The match that starts exactly at index [i], where [s] is the input from
    [i] on. *)
Definition matchAt (R : RegExp) (i : nat) (s : jsstring) : option MatchState :=
  m (ignoreCase R) (pattern R) (mkState i s []) Some.

(** RegExpBuiltinExec: the first index from [i] on at which a match starts. *)
Record MatchResult := mkResult {
  index : nat;
  matched : jsstring;
  after : jsstring;
  groups : list (nat * jsstring)
}.

Fixpoint execFrom (R : RegExp) (i : nat) (s : jsstring) : option MatchResult :=
  match matchAt R i s with
  | Some y => Some (mkResult i (firstn (endIndex y - i) s) (rest y) (captures y))
  | None =>
    match s with
    | [] => None
    | _ :: s' => execFrom R (S i) s'
    end
  end.

Definition exec (R : RegExp) (s : jsstring) : option MatchResult :=
  execFrom R 0 s.

(** [re.test(s)] and [s.match(re)] for a regular expression without [g]. *)
Definition test (R : RegExp) (s : jsstring) : bool :=
  match exec R s with Some _ => true | None => false end.

Definition group (k : nat) (r : MatchResult) : option jsstring :=
  capture k (groups r).

(** [s.replace(re, repl)] where [repl] holds no dollar sign: the first match
    is replaced, every match when [re] is global. After an empty match the
    search moves on by one code unit. *)
Fixpoint replaceLoop (fuel : nat) (R : RegExp) (repl : jsstring)
  (i : nat) (s : jsstring) : jsstring :=
  match fuel with
  | O => s
  | S fuel' =>
    match matchAt R i s with
    | Some y =>
      if Nat.eqb (endIndex y) i then
        repl ++ match s with
                | [] => []
                | u :: s' => u :: replaceLoop fuel' R repl (S i) s'
                end
      else repl ++ replaceLoop fuel' R repl (endIndex y) (rest y)
    | None =>
      match s with
      | [] => []
      | u :: s' => u :: replaceLoop fuel' R repl (S i) s'
      end
    end
  end.

Definition replace (R : RegExp) (repl : jsstring) (s : jsstring) : jsstring :=
  if global R then replaceLoop (S (List.length s)) R repl 0 s
  else match exec R s with
       | Some r => firstn (index r) s ++ repl ++ after r
       | None => s
       end.

(** [s.split(re)] for a pattern without capture groups (22.2.6.14): [p] is the
    end of the last separator and [q] the index tried; [cur] holds the units
    from [p] to [q], reversed, and [atP] tells whether [q = p]. A match that
    ends at [p] only moves [q] on. *)
Fixpoint splitLoop (fuel : nat) (R : RegExp) (q : nat) (cur : jsstring)
  (atP : bool) (s : jsstring) : list jsstring :=
  match fuel with
  | O => [rev cur ++ s]
  | S fuel' =>
    match s with
    | [] => [rev cur]
    | u :: s' =>
      match matchAt R q s with
      | Some y =>
        if Nat.eqb (endIndex y) q && atP
        then splitLoop fuel' R (S q) (u :: cur) false s'
        else rev cur :: splitLoop fuel' R (endIndex y) [] true (rest y)
      | None => splitLoop fuel' R (S q) (u :: cur) false s'
      end
    end
  end.

Definition splitRe (R : RegExp) (s : jsstring) : list jsstring :=
  match s with
  | [] => match matchAt R 0 [] with Some _ => [] | None => [[]] end
  | _ => splitLoop (S (2 * List.length s)) R 0 [] true s
  end.

End Regex.
Import Regex.

(* ================================================================== *)
(** * JavaScript values *)
(* ================================================================== *)

Module JsValue.

(** Numbers: the finite ones by their exact value. *)
Inductive jsnum :=
| NaN
| PosInf
| NegInf
| Fin (q : Q).

Inductive jsval :=
| Undefined
| Null
| Bool (b : bool)
| Num (n : jsnum)
| Str (s : jsstring)
| Arr (l : list jsval)
| Obj (props : list (jsstring * jsval)).

Definition num_falsy (n : jsnum) : bool :=
  match n with
  | NaN => true
  | Fin q => Qeq_bool q 0
  | _ => false
  end.

(** ToBoolean *)
Definition truthy (v : jsval) : bool :=
  match v with
  | Undefined | Null => false
  | Bool b => b
  | Num n => negb (num_falsy n)
  | Str s => match s with [] => false | _ => true end
  | Arr _ | Obj _ => true
  end.

(** [a || b] *)
Definition or_else (a b : jsval) : jsval := if truthy a then a else b.
Definition num_or_else (a b : jsnum) : jsnum := if num_falsy a then b else a.

(** [Math.min(a, b)] and [Math.max(a, b)] *)
Definition Math_min (a b : jsnum) : jsnum :=
  match a, b with
  | NaN, _ | _, NaN => NaN
  | NegInf, _ | _, NegInf => NegInf
  | PosInf, x | x, PosInf => x
  | Fin p, Fin q => if Qle_bool p q then a else b
  end.

Definition Math_max (a b : jsnum) : jsnum :=
  match a, b with
  | NaN, _ | _, NaN => NaN
  | PosInf, _ | _, PosInf => PosInf
  | NegInf, x | x, NegInf => x
  | Fin p, Fin q => if Qle_bool p q then b else a
  end.

(** [a >= b] for a finite [b] *)
Definition num_ge (a : jsnum) (b : Q) : bool :=
  match a with
  | NaN | NegInf => false
  | PosInf => true
  | Fin q => Qle_bool b q
  end.

(** [Math.round]: the nearest integer, ties upwards. *)
Definition Math_round (a : jsnum) : jsnum :=
  match a with
  | Fin q => Fin (inject_Z (Qfloor (q + (1 # 2))))
  | _ => a
  end.

(** [lo <= n <= hi] *)
Definition within (lo hi : Q) (n : jsnum) : Prop :=
  match n with
  | Fin q => lo <= q /\ q <= hi
  | _ => False
  end.

(** An outcome of [Math.random()]: the binary fraction
    [(rnum mod 2^rexp) / 2^rexp], a number in [0, 1). *)
Record Random := mkRandom { rnum : N; rexp : N }.

(** [Math.floor(Math.random() * len)] *)
Definition randomIndex (u : Random) (len : nat) : nat :=
  N.to_nat ((rnum u mod 2 ^ rexp u) * N.of_nat len / 2 ^ rexp u).

(** [pool[Math.floor(Math.random() * pool.length)]] *)
Definition pick (u : Random) (pool : list jsstring) : jsstring :=
  nth (randomIndex u (List.length pool)) pool [].

(** [parseInt(s)] in radix 10: leading white space, a sign, then the longest
    run of digits; [None] is NaN. The source applies it to runs of digits.
    The value is the exact integer: it is the value of the binary64 number
    of the source below 2^53. *)
Fixpoint takeDigits (s : jsstring) : jsstring :=
  match s with
  | c :: s' => if isDigit c then c :: takeDigits s' else []
  | [] => []
  end.

Definition parseInt (s : jsstring) : option Z :=
  let s1 := trimStart s in
  let '(neg, s2) :=
    match s1 with
    | c :: t => if (c =? chr "-")%N then (true, t)
                else if (c =? chr "+")%N then (false, t) else (false, s1)
    | [] => (false, [])
    end in
  match takeDigits s2 with
  | [] => None
  | ds => let v := Z.of_N (digits_value ds) in
          Some (if neg then (- v)%Z else v)
  end.

Definition int_add (a b : option Z) : option Z :=
  match a, b with Some x, Some y => Some (x + y)%Z | _, _ => None end.
Definition int_sub (a b : option Z) : option Z :=
  match a, b with Some x, Some y => Some (x - y)%Z | _, _ => None end.

(** [a === b] on numbers: NaN equals nothing. *)
Definition int_strict_eq (a b : option Z) : bool :=
  match a, b with Some x, Some y => Z.eqb x y | _, _ => false end.

(** A number inside a template literal. *)
Definition int_to_string (a : option Z) : jsstring :=
  match a with Some z => Z_to_string z | None => utf16 "NaN" end.

(** A capture inside a template literal. *)
Definition show (o : option jsstring) : jsstring :=
  match o with Some s => s | None => utf16 "undefined" end.

End JsValue.
Import JsValue.

(* ================================================================== *)
(** * The service: results *)
(* ================================================================== *)

(** [StepValidationResult] (aiValidation.ts, lines 8-13). The optional
    [explanation] is [Undefined] when absent. *)
Record StepValidationResult := mkStepResult {
  isCorrect : bool;
  feedback : jsstring;
  explanation : jsval;
  confidence : jsnum
}.

(* ================================================================== *)
(** * Heuristic validator (lines 78-321) *)
(* ================================================================== *)

Module Heuristic.

Definition letter : regex := Char (union (range "a" "z") (range "A" "Z")).
Definition plusMinus : regex := Char (oneOf "+-").

(** Lines 90-94. *)
Definition reNumbers : RegExp := re [digit].
Definition reVariables : RegExp := re [letter].
Definition reBasicOperations : RegExp := re [Char (oneOf "+-*/^()")].
Definition reFractions : RegExp := re [Alt (lit "\frac") (ch "/")].
Definition reSquareRoot : RegExp := re [Alt (lit "\sqrt") (lit "√")].

(** Line 140: the sign-error shape; line 142: the same with its groups. *)
Definition reSignError : RegExp :=
  re [Bol; Star digit; Opt (ch "x"); Star space; ch "="; Star space;
      Plus digit; Star space; ch "+"; Star space; Plus digit; Eol].
Definition reSignErrorGroups : RegExp :=
  re [Bol; Group 1 (Star digit); Opt (ch "x"); Star space; ch "=";
      Star space; Group 2 (Plus digit); Star space; ch "+"; Star space;
      Group 3 (Plus digit); Eol].

(** Lines 155 and 236: number, sign, number, equals, number. *)
Definition reArithmetic : RegExp :=
  re [Bol; Group 1 (Plus digit); Star space; Group 2 plusMinus; Star space;
      Group 3 (Plus digit); Star space; ch "="; Star space;
      Group 4 (Plus digit); Eol].

(** Lines 135-169. *)
Definition checkForCommonMistakes (step : jsstring)
  : option StepValidationResult :=
  let trimmed := trim step in
  let signError :=
    if test reSignError trimmed then
      match exec reSignErrorGroups trimmed with
      | Some mt =>
        let num2 := group 3 mt in
        Some (mkStepResult false
                (utf16 "🤔 Check signs: when moving " ++ show num2
                   ++ utf16 ", it should become -" ++ show num2)
                (Str (utf16 "When moving a positive term across the equals sign, it becomes negative."))
                (Fin (85 # 100)))
      | None => None
      end
    else None in
  match signError with
  | Some r => Some r
  | None =>
    match exec reArithmetic trimmed with
    | Some mt =>
      let num1 := group 1 mt in
      let op := group 2 mt in
      let num2 := group 3 mt in
      let result := group 4 mt in
      let expected :=
        if JsString.eqb (show op) (utf16 "+")
        then int_add (parseInt (show num1)) (parseInt (show num2))
        else int_sub (parseInt (show num1)) (parseInt (show num2)) in
      if negb (int_strict_eq expected (parseInt (show result))) then
        Some (mkStepResult false
                (utf16 "❌ Arithmetic error: " ++ show num1 ++ utf16 " "
                   ++ show op ++ utf16 " " ++ show num2 ++ utf16 " = "
                   ++ int_to_string expected ++ utf16 ", not " ++ show result)
                Undefined
                (Fin (95 # 100)))
      else None
    | None => None
    end
  end.

(** Lines 173-181. *)
Definition algebraPatterns : list RegExp :=
  [ re [Bol; Star digit; Opt (ch "x"); Star space; ch "="; Star space;
        Plus digit; Eol];
    re [Bol; Star digit; Opt (ch "x"); Star space; plusMinus; Star space;
        Plus digit; Star space; ch "="; Star space; Plus digit; Eol];
    re [Bol; Plus digit; Star space; plusMinus; Star space; Plus digit;
        Star space; Opt (ch "="); Star space; Star digit; Eol];
    re [Bol; Plus digit; Star space; ch "/"; Star space; Plus digit;
        Star space; Opt (ch "="); Star space; Star digit; Eol];
    re [Bol; Plus digit; ch "("; Plus digit; ch ")"; Star space; plusMinus;
        Star space; Plus digit; Star space; ch "="; Star space; Plus digit;
        Eol];
    re [Bol; lit "\frac{"; Plus digit; lit "}{"; Plus digit; ch "}"];
    re [Bol; Plus digit; Star space; ch "="; Star space; Plus digit; Eol] ].

(** Line 183: runs of white space become one space. *)
Definition reSpaces : RegExp := re_g [Plus space].

Definition isValidAlgebraStep (step : jsstring) : bool :=
  existsb (fun pattern => test pattern (trim (replace reSpaces (utf16 " ") step)))
          algebraPatterns.

(** The patterns of [getStepSpecificFeedback], lines 190-293. *)
Definition reFoundX : RegExp :=
  re [Bol; ch "x"; Star space; ch "="; Star space; Plus digit; Eol].
Definition reCoefficient : RegExp :=
  re [Bol; Plus digit; ch "x"; Star space; ch "="; Star space; Plus digit; Eol].
Definition reMoveTerm : RegExp :=
  re [Bol; Star digit; Opt (ch "x"); Star space; ch "="; Star space;
      Plus digit; Star space; plusMinus; Star space; Plus digit; Eol].
Definition reCalculation : RegExp :=
  re [Bol; Plus digit; Star space; plusMinus; Star space; Plus digit;
      Star space; ch "="; Star space; Plus digit; Eol].
Definition reDivision : RegExp :=
  re [Bol; Plus digit; Star space; ch "/"; Star space; Plus digit].
Definition reFrac : RegExp := re [lit "\frac"].
Definition reVerification : RegExp :=
  re [Bol; Group 1 (Plus digit); Star space; ch "="; Star space; BackRef 1; Eol].
Definition reSubstitution : RegExp :=
  re [Bol; Plus digit; ch "("; Plus digit; ch ")"; Star space; plusMinus;
      Star space; Plus digit; Star space; ch "="; Star space; Plus digit; Eol].

(** The pools of encouragements, in the order of the source. *)
Definition poolFoundX : list jsstring :=
  [ utf16 "🎯 Perfect! You found the value of x!";
    utf16 "🌟 Excellent! You solved for x!";
    utf16 "🚀 Great work! You isolated the variable!";
    utf16 "💎 Outstanding! You found the solution!" ].
Definition poolCoefficient : list jsstring :=
  [ utf16 "✅ Correct step!";
    utf16 "👍 Nice work!";
    utf16 "🎉 Great progress!";
    utf16 "💪 You're doing great!" ].
Definition poolMoveTerm : list jsstring :=
  [ utf16 "👍 Good move!";
    utf16 "🎯 Smart algebraic manipulation!";
    utf16 "✨ Nice work isolating the variable!";
    utf16 "🔥 Great step!" ].
Definition poolCalculation : list jsstring :=
  [ utf16 "🧮 Correct!";
    utf16 "🎯 Perfect arithmetic!";
    utf16 "⭐ Great calculation!";
    utf16 "💯 Excellent math!" ].
Definition poolDivision : list jsstring :=
  [ utf16 "🔢 Good!";
    utf16 "📊 Nice division!";
    utf16 "🎯 Great work!";
    utf16 "✨ Excellent!" ].
Definition poolVerification : list jsstring :=
  [ utf16 "✓ Perfect verification! Your check confirms the solution.";
    utf16 "🎉 Excellent! You verified your answer correctly!";
    utf16 "🌟 Outstanding! Your solution checks out!";
    utf16 "💎 Perfect! You double-checked your work!" ].
Definition poolSubstitution : list jsstring :=
  [ utf16 "🔍 Excellent substitution check! You verified your answer.";
    utf16 "🎯 Perfect! You checked your solution!";
    utf16 "⭐ Great verification! Your answer is correct!";
    utf16 "🚀 Outstanding! You confirmed your solution!" ].
Definition poolGeneric : list jsstring :=
  [ utf16 "✅ Good mathematical step! Keep going.";
    utf16 "👍 Nice work! Continue solving.";
    utf16 "🎯 Great progress! Keep it up.";
    utf16 "💪 You're doing well! Don't stop now.";
    utf16 "✨ Excellent! You're on the right track.";
    utf16 "🌟 Great job! Keep solving step by step." ].

Definition encouragementPools : list (list jsstring) :=
  [ poolFoundX; poolCoefficient; poolMoveTerm; poolCalculation; poolDivision;
    poolVerification; poolSubstitution; poolGeneric ].

Definition encouragement (u : Random) (pool : list jsstring) (conf : Q)
  : StepValidationResult :=
  mkStepResult true (pick u pool) Undefined (Fin conf).

(** Lines 186-321; [u] is the outcome of the one call of [Math.random]. *)
Definition getStepSpecificFeedback (u : Random) (step : jsstring)
  : StepValidationResult :=
  let trimmed := trim step in
  if test reFoundX trimmed then encouragement u poolFoundX (95 # 100)
  else if test reCoefficient trimmed then encouragement u poolCoefficient (9 # 10)
  else if test reMoveTerm trimmed then encouragement u poolMoveTerm (9 # 10)
  else
    let calculation :=
      if test reCalculation trimmed then
        match exec reArithmetic trimmed with
        | Some mt =>
          let num1 := group 1 mt in
          let op := group 2 mt in
          let num2 := group 3 mt in
          let result := group 4 mt in
          let expected :=
            if JsString.eqb (show op) (utf16 "+")
            then int_add (parseInt (show num1)) (parseInt (show num2))
            else int_sub (parseInt (show num1)) (parseInt (show num2)) in
          if int_strict_eq expected (parseInt (show result))
          then Some (encouragement u poolCalculation (95 # 100))
          else Some (mkStepResult false
                       (utf16 "🤔 Check: " ++ show num1 ++ utf16 " " ++ show op
                          ++ utf16 " " ++ show num2 ++ utf16 " = "
                          ++ int_to_string expected)
                       Undefined (Fin (9 # 10)))
        | None => None
        end
      else None in
    match calculation with
    | Some r => r
    | None =>
      if test reDivision trimmed || test reFrac trimmed
      then encouragement u poolDivision (85 # 100)
      else if test reVerification trimmed
      then encouragement u poolVerification (95 # 100)
      else if test reSubstitution trimmed
      then encouragement u poolSubstitution (9 # 10)
      else encouragement u poolGeneric (8 # 10)
    end.

(** Lines 78-133. *)
Definition fallbackValidation (u : Random) (latex : jsstring)
  : StepValidationResult :=
  let trimmed := trim latex in
  match checkForCommonMistakes trimmed with
  | Some mistakeCheck => mistakeCheck
  | None =>
    let hasEquals := includes trimmed (utf16 "=") in
    let hasNumbers := test reNumbers trimmed in
    let hasVariables := test reVariables trimmed in
    let hasBasicOperations := test reBasicOperations trimmed in
    let hasFractions := test reFractions trimmed in
    let hasSquareRoot := test reSquareRoot trimmed in
    if isValidAlgebraStep trimmed then getStepSpecificFeedback u trimmed
    else if hasEquals && (hasNumbers || hasVariables) then
      mkStepResult true (utf16 "✅ Valid equation!") Undefined (Fin (9 # 10))
    else if (hasNumbers || hasVariables || hasFractions || hasSquareRoot)
            && (0 <? List.length trimmed) then
      mkStepResult true (utf16 "✅ Valid expression!") Undefined (Fin (85 # 100))
    else if hasBasicOperations || hasNumbers || hasVariables then
      mkStepResult true (utf16 "👍 Good step!") Undefined (Fin (75 # 100))
    else
      mkStepResult false (utf16 "🤔 Write a complete equation.") Undefined
        (Fin (3 # 10))
  end.

End Heuristic.
Import Heuristic.


(* ================================================================== *)
(** * Response normaliser and orchestrator (lines 25-76, 374-810) *)
(* ================================================================== *)

(** [SolutionEvaluation]: the result of [evaluateCompleteSolution]. *)
Record SolutionEvaluation := mkEvaluation {
  score : jsnum;
  evaluationFeedback : jsstring;
  suggestions : list jsstring
}.

(** An element of [solutionData.steps]. *)
Record SolutionStep := mkStep {
  stepNumber : jsnum;
  latex : jsstring;
  stepIsCorrect : bool;
  stepFeedback : jsstring
}.

(** What [await groq.chat.completions.create(...)] followed by
    [choices[0]?.message?.content] comes to: the call rejects or the reply
    has no [choices] ([Failure]), or the content is there or absent. *)
Inductive Completion :=
| Failure
| Content (c : option jsstring).

(** The state in which an [async] method leaves its promise. *)
Inductive Promise (A : Type) :=
| Resolved (a : A)
| Rejected.
Arguments Rejected {A}.

(** Code that may throw returns an option, [None] for a thrown exception.
    An [async] method resolves with what its body returns and rejects when
    its body throws; [try_catch] runs the handler when the block throws. *)
Definition async {A : Type} (body : option A) : Promise A :=
  match body with Some a => Resolved a | None => Rejected end.

Definition try_catch {A : Type} (block handler : option A) : option A :=
  match block with Some a => Some a | None => handler end.

(** [chatCompletion.choices[0]?.message?.content || ''] after the [await]. *)
Definition contentOf (c : Completion) : option jsstring :=
  match c with
  | Failure => None
  | Content (Some text) => Some text
  | Content None => Some []
  end.

Module Service.

(** The prompt texts (lines 40, 337-369, 589-606, 612). *)
Definition nl : jsstring := [10%N].

Definition validationSystemPrompt : jsstring :=
  utf16 "You are a math tutor that validates mathematical steps. Analyze the given mathematical step and determine if it's correct in the context of the problem. Respond with ONLY valid JSON format. Do not include any text before or after the JSON. The JSON must contain: isCorrect (boolean), feedback (string with emoji), explanation (optional string), confidence (number 0-1).".

Definition validationPromptHead : jsstring :=
  join nl
    [ utf16 "You are a math tutor validating a student's step-by-step solution. ";
      [];
      utf16 "ORIGINAL PROBLEM: " ].
Definition validationPromptStep : jsstring :=
  join nl
    [ [];
      utf16 "STUDENT'S CURRENT STEP: " ].
Definition validationPromptRules : jsstring :=
  join nl
    [ [];
      [];
      utf16 "Validate this mathematical step carefully:";
      [];
      utf16 "1. Check if the step follows correct mathematical rules";
      utf16 "2. Verify arithmetic calculations are accurate  ";
      utf16 "3. Ensure algebraic manipulations are valid";
      utf16 "4. Consider if this step logically follows from the previous work";
      [];
      utf16 "VALIDATION RULES:";
      utf16 "✓ CORRECT examples:";
      utf16 "- Moving terms across equals: 2x + 3 = 11 → 2x = 11 - 3";
      utf16 "- Combining like terms: 11 - 3 = 8";
      utf16 "- Division: 2x = 8 → x = 4  ";
      utf16 "- Substitution check: 2(4) + 3 = 11";
      [];
      utf16 "✗ INCORRECT examples:";
      utf16 "- Wrong signs: 2x + 3 = 11 → 2x = 11 + 3";
      utf16 "- Bad arithmetic: 11 - 3 = 7";
      utf16 "- Invalid operations: 2x = 8 → x = 8";
      [];
      utf16 "Respond with ONLY this JSON format:";
      utf16 "{";
      utf16 "  " ++ [dq] ++ utf16 "isCorrect" ++ [dq] ++ utf16 ": true/false,";
      utf16 "  " ++ [dq] ++ utf16 "feedback" ++ [dq] ++ utf16 ": " ++ [dq] ++ utf16 "Brief, encouraging feedback about the step" ++ [dq] ++ utf16 ",";
      utf16 "  " ++ [dq] ++ utf16 "explanation" ++ [dq] ++ utf16 ": " ++ [dq] ++ utf16 "If wrong, explain the correct approach" ++ [dq] ++ utf16 ",";
      utf16 "  " ++ [dq] ++ utf16 "confidence" ++ [dq] ++ utf16 ": 0.0-1.0";
      utf16 "}";
      [];
      utf16 "Be encouraging but mathematically accurate. JSON only:" ].

Definition evaluationSystemPrompt : jsstring :=
  utf16 "You are an expert math tutor evaluating a student's complete solution. Be encouraging but thorough in your assessment. Respond with ONLY valid JSON format. Do not include any text before or after the JSON. The JSON must contain: score (number 0-100), feedback (string with emoji), suggestions (array of strings with emojis).".

Definition evaluationPromptHead : jsstring :=
  join nl
    [ utf16 "Evaluate this complete mathematical solution:";
      [];
      utf16 "Original Problem: " ].
Definition evaluationPromptSteps : jsstring :=
  join nl
    [ [];
      [];
      utf16 "Steps:";
      [] ].
Definition evaluationPromptTask : jsstring :=
  join nl
    [ [];
      [];
      utf16 "Please provide a comprehensive evaluation with:";
      utf16 "1. Overall score (0-100)";
      utf16 "2. Detailed feedback on the solution";
      utf16 "3. Specific suggestions for improvement";
      [];
      utf16 "Respond with a JSON object containing:";
      utf16 "- " ++ [dq] ++ utf16 "score" ++ [dq] ++ utf16 ": number (0-100)";
      utf16 "- " ++ [dq] ++ utf16 "feedback" ++ [dq] ++ utf16 ": string (detailed evaluation of the solution)";
      utf16 "- " ++ [dq] ++ utf16 "suggestions" ++ [dq] ++ utf16 ": array of strings (specific improvement suggestions)" ].

Definition quote : regex := Char (unit dq).
Definition pipeline (fs : list (jsstring -> jsstring)) (s : jsstring) : jsstring :=
  fold_left (fun acc f => f acc) fs s.

Definition isEmpty (s : jsstring) : bool :=
  match s with [] => true | _ => false end.

(** Lines 380 and 704: the code-fence markers. *)
Definition reFence : RegExp :=
  re_g [Alt (seq [lit "```json"; Star space]) (seq [Star space; lit "```"])].

(** Lines 383 and 730: from the first opening brace to the last closing one. *)
Definition reJsonObject : RegExp :=
  re [ch "{"; Star (Char (union isSpace (negate isSpace))); ch "}"].

(** Lines 388-392 and 735-739: the character-level repairs. Each of the
    last three replaces a backslash and a letter by the same two units. *)
Definition reEscapedQuote : RegExp := re_g [ch "\"; quote].
Definition reEscapedN : RegExp := re_g [lit "\n"].
Definition reEscapedT : RegExp := re_g [lit "\t"].
Definition reEscapedR : RegExp := re_g [lit "\r"].

Definition repairJson : jsstring -> jsstring :=
  pipeline [ replace reEscapedQuote [dq];
             replace reEscapedN (utf16 "\n");
             replace reEscapedT (utf16 "\t");
             replace reEscapedR (utf16 "\r") ].

(** The patterns of [cleanFeedback], lines 434-489. *)
Definition reLeadingBracket : RegExp := re [Bol; Char (oneOf "{[")].
Definition reTrailingBracket : RegExp := re [Char (oneOf "}]"); Eol].
Definition reSurroundingQuotes : RegExp :=
  re_g [Alt (seq [Bol; quote]) (seq [quote; Eol])].
Definition reFieldColon (name : string) : RegExp :=
  re_i [Bol; quote; lit name; quote; ch ":"; Star space; Opt quote].
Definition reFieldSpaceColon (name : string) : RegExp :=
  re_i [Bol; quote; lit name; quote; Star space; ch ":"; Star space; Opt quote].
Definition reFieldNoQuote (name : string) : RegExp :=
  re_i [Bol; lit name; quote; ch ":"; Star space; Opt quote].
Definition reTrailingQuote : RegExp :=
  re [quote; Opt (ch ","); Star space; Eol].
Definition reLeadingComma : RegExp := re [Bol; ch ","].
Definition reTrailingComma : RegExp := re [ch ","; Eol].
Definition reFieldSeparator : RegExp :=
  re [Star (Char (union (unit dq) isSpace)); Plus Heuristic.letter;
      Star (Char (union (unit dq) isSpace)); ch ":"; Star space].
Definition reLeadingMarker : RegExp :=
  re [Bol; Char (oneOf "🎯✅❌👍🤔💡🎉🌟💪✨🔥📚💯")].

Definition fieldNames : list string :=
  ["feedback"; "explanation"; "isCorrect"; "confidence"; "score";
   "suggestions"]%string.
Definition fieldNamesMalformed : list string :=
  ["score"; "feedback"; "suggestions"; "isCorrect"; "confidence";
   "explanation"]%string.

(** The text [name] between double quotes, followed by a colon. *)
Definition fieldMarker (name : string) : jsstring :=
  dq :: utf16 name ++ [dq; chr ":"].

(** The patterns of [cleanSuggestion], lines 510-526. *)
Definition reBullet : RegExp := re [Bol; Char (oneOf "•-*"); Star space].
Definition reMemo : RegExp := re [Bol; lit "📝"; Star space].
Definition reEg : RegExp := re [Bol; lit "e.g."; Star space].
Definition reThus : RegExp := re [Bol; lit "Thus"; Star space].
Definition reSolutionExample : RegExp :=
  re [Bol; lit "(x = "; Plus digit; ch ")"; Opt (ch "."); Star space].
Definition reVerify : RegExp := re [Bol; lit "Verify"; Star space].
Definition reInclude : RegExp := re [Bol; lit "Include"; Star space].
Definition reAdd : RegExp := re [Bol; lit "Add"; Star space].
Definition reLatexOpen : RegExp := re_g [lit "\("].
Definition reLatexClose : RegExp := re_g [lit "\)"].
Definition reLatexCommand : RegExp :=
  re_g [ch "\"; Plus Heuristic.letter; ch "{"; Star (Char (negate (one "}")));
        ch "}"].
Definition reBraces : RegExp :=
  re_g [ch "{"; Star (Char (negate (one "}"))); ch "}"].
Definition reBackslash : RegExp := re_g [ch "\"].

(** Lines 707 and 774: the patterns of [parseSolutionEvaluation]. *)
Definition quoteOrSpace : regex := Char (union (unit dq) isSpace).
Definition reMalformed : RegExp :=
  re [Star quoteOrSpace; lit "score"; Star quoteOrSpace; ch ":"; Star space;
      Group 1 (Plus digit); ch ",";
      Star quoteOrSpace; lit "feedback"; Star quoteOrSpace; ch ":"; Star space;
      quote; Group 2 (Plus (Char (negate (unit dq)))); quote; ch ",";
      Star quoteOrSpace; lit "suggestions"; Star quoteOrSpace; ch ":";
      Star space; ch "["; Group 3 (Star (Char (negate (one "]")))); ch "]"].
Definition reScore : RegExp :=
  re_i [Alt (seq [Group 1 (Plus digit); lit "/100"])
            (seq [lit "score"; Star (Char (union (one ":") isSpace));
                  Group 2 (Plus digit)])].

(** [parsed.name]: the last binding of an object; reading a property of
    [null] or [undefined] throws ([None]). None of the names read here is a
    property of a prototype. *)
Fixpoint lookup (name : jsstring) (props : list (jsstring * jsval))
  : option jsval :=
  match props with
  | [] => None
  | (k, v) :: props' =>
    match lookup name props' with
    | Some w => Some w
    | None => if JsString.eqb k name then Some v else None
    end
  end.

Definition get (v : jsval) (name : string) : option jsval :=
  match v with
  | Obj props =>
    Some (match lookup (utf16 name) props with Some w => w | None => Undefined end)
  | Undefined | Null => None
  | _ => Some Undefined
  end.

(** [x.then(f)] for computations that may throw: [None] is a thrown
    exception. *)
Definition bind {A B : Type} (x : option A) (f : A -> option B) : option B :=
  match x with Some a => f a | None => None end.

Notation "x <- e ;; k" := (bind e (fun x => k))
  (at level 61, e at next level, right associativity).

(** [Math.max(0, Math.min(hi, n))] *)
Definition clamp (hi : Q) (n : jsnum) : jsnum :=
  Math_max (Fin 0) (Math_min (Fin hi) n).

(** Lines 784-810, on a number. *)
Definition generateDefaultSuggestions (score : jsnum) : list jsstring :=
  if num_ge score 90 then
    [ utf16 "🎯 Try more complex problems to challenge yourself";
      utf16 "🌟 Consider exploring advanced topics like quadratic equations";
      utf16 "💪 Keep up the excellent work!" ]
  else if num_ge score 70 then
    [ utf16 "📚 Review the steps you missed and understand the correct approach";
      utf16 "🎯 Practice similar problems to strengthen your skills";
      utf16 "💡 Focus on the areas that need improvement" ]
  else if num_ge score 50 then
    [ utf16 "📖 Focus on understanding the fundamental algebraic rules";
      utf16 "🔍 Break down complex problems into smaller, manageable steps";
      utf16 "🧮 Double-check your arithmetic calculations" ]
  else
    [ utf16 "📚 Review basic algebraic operations and rules";
      utf16 "🎯 Start with simpler problems and gradually increase difficulty";
      utf16 "💪 Don't hesitate to ask for help when you need it" ].

Section Builtins.

(** The built-ins of ECMAScript the service calls and the capability it
    consumes. [JSON_parse] returns [None] when [JSON.parse] throws;
    [fl] rounds a real number to binary64. *)
Variable JSON_parse : jsstring -> option jsval.
Variable StringToNumber : jsstring -> jsnum.
Variable NumberToString : jsnum -> jsstring.
Variable toLowerCase : jsstring -> jsstring.
Variable fl : Q -> Q.
Variable groq_create : jsstring -> jsstring -> Completion.

(** ToString (7.1.17) of a value made by [JSON.parse]. An object is
    converted by [Object.prototype.toString] unless a property of its own
    hides it, in which case the conversion throws; an array by [join]. *)
Fixpoint ToString (v : jsval) : option jsstring :=
  match v with
  | Undefined => Some (utf16 "undefined")
  | Null => Some (utf16 "null")
  | Bool b => Some (if b then utf16 "true" else utf16 "false")
  | Num n => Some (NumberToString n)
  | Str s => Some s
  | Arr l =>
    option_map (join (utf16 ","))
      ((fix elements (l : list jsval) : option (list jsstring) :=
          match l with
          | [] => Some []
          | e :: l' =>
            s <- match e with
                 | Undefined | Null => Some []
                 | _ => ToString e
                 end ;;
            ss <- elements l' ;;
            Some (s :: ss)
          end) l)
  | Obj props =>
    match lookup (utf16 "toString") props with
    | Some _ => None
    | None => Some (utf16 "[object Object]")
    end
  end.

(** ToNumber (7.1.4); an object or array goes through its string, and the
    conversion of a string is [StringToNumber]. *)
Definition ToNumber (v : jsval) : option jsnum :=
  match v with
  | Undefined => Some NaN
  | Null => Some (Fin 0)
  | Bool b => Some (Fin (if b then 1 else 0))
  | Num n => Some n
  | Str s => Some (StringToNumber s)
  | Arr _ | Obj _ => s <- ToString v ;; Some (StringToNumber s)
  end.

(** Lines 429-503. *)
Definition cleanFeedback (text : jsstring) : jsstring :=
  if isEmpty text then [] else
  let cleaned :=
    pipeline
      ([ replace reLeadingBracket [];
         replace reTrailingBracket [];
         replace reSurroundingQuotes [];
         replace reEscapedQuote [dq];
         replace reEscapedN [10%N];
         replace reEscapedT [9%N];
         replace reEscapedR [13%N];
         trim ]
       ++ map (fun name => replace (reFieldColon name) []) fieldNames
       ++ map (fun name => replace (reFieldSpaceColon name) []) fieldNames
       ++ map (fun name => replace (reFieldNoQuote name) []) fieldNamesMalformed
       ++ [ replace reTrailingQuote [];
            replace reTrailingQuote [];
            replace reLeadingComma [];
            replace reTrailingComma [];
            replace reSurroundingQuotes [] ])
      text in
  let cleaned :=
    if includes cleaned (fieldMarker "score")
       || includes cleaned (fieldMarker "feedback")
       || includes cleaned (fieldMarker "suggestions")
    then
      let parts := splitRe reFieldSeparator cleaned in
      if 1 <? List.length parts then last parts [] else cleaned
    else cleaned in
  let cleaned :=
    pipeline [ replace reLeadingBracket [];
               replace reTrailingBracket [];
               replace reSurroundingQuotes [];
               trim ] cleaned in
  let lower := toLowerCase cleaned in
  let cleaned :=
    if negb (isEmpty cleaned) && negb (test reLeadingMarker cleaned) then
      if includes lower (utf16 "correct") || includes lower (utf16 "good")
         || includes lower (utf16 "excellent") || includes lower (utf16 "great")
      then utf16 "✅ " ++ cleaned
      else if includes lower (utf16 "wrong") || includes lower (utf16 "incorrect")
              || includes lower (utf16 "error")
      then utf16 "❌ " ++ cleaned
      else if includes lower (utf16 "hint") || includes lower (utf16 "try")
              || includes lower (utf16 "remember")
      then utf16 "💡 " ++ cleaned
      else utf16 "📝 " ++ cleaned
    else cleaned in
  trim cleaned.

(** [cleanFeedback] on a value that need not be a string: a falsy one
    gives the empty string, and calling [replace] on another one throws. *)
Definition cleanFeedbackAny (v : jsval) : option jsstring :=
  if negb (truthy v) then Some []
  else match v with
       | Str s => Some (cleanFeedback s)
       | _ => None
       end.

(** Lines 505-543. *)
Definition cleanSuggestion (text : jsstring) : jsstring :=
  if isEmpty text then [] else
  let cleaned :=
    pipeline [ replace reBullet [];
               replace reMemo [];
               replace reEg [];
               replace reThus [];
               replace reSolutionExample [];
               replace reVerify [];
               replace reInclude [];
               replace reAdd [];
               trim;
               replace reLatexOpen [];
               replace reLatexClose [];
               replace reLatexCommand [];
               replace reBraces [];
               replace reBackslash [];
               trim ] text in
  let lower := toLowerCase cleaned in
  let cleaned :=
    if includes lower (utf16 "verify") || includes lower (utf16 "check")
       || includes lower (utf16 "substitute")
    then utf16 "🔍 " ++ cleaned
    else if includes lower (utf16 "add") || includes lower (utf16 "include")
            || includes lower (utf16 "step")
    then utf16 "📝 " ++ cleaned
    else if includes lower (utf16 "explain")
            || includes lower (utf16 "understanding")
            || includes lower (utf16 "reinforce")
    then utf16 "📚 " ++ cleaned
    else if includes lower (utf16 "practice") || includes lower (utf16 "review")
            || includes lower (utf16 "focus")
    then utf16 "🎯 " ++ cleaned
    else utf16 "💡 " ++ cleaned in
  trim cleaned.

(** Lines 377-394 (and 701-741 after the malformed case): strip the fences,
    take the text from the first opening brace to the last closing one,
    repair it and parse it. [None]: no such text, or [JSON.parse] throws. *)
Definition stripFences (response : jsstring) : jsstring :=
  replace reFence [] (trim response).

Definition extractJson (response : jsstring) : option jsval :=
  match exec reJsonObject (stripFences response) with
  | Some jsonMatch => JSON_parse (repairJson (matched jsonMatch))
  | None => None
  end.

(** The [try] block of [parseValidationResponse], lines 375-411: [None]
    when it is left without [return], by an exception or at its end. *)
Definition parseValidationResponse_try (response : jsstring)
  : option StepValidationResult :=
  parsed <- extractJson response ;;
  feedback0 <- get parsed "feedback" ;;
  feedback <- cleanFeedbackAny
                (or_else feedback0 (Str (utf16 "No feedback provided"))) ;;
  explanation0 <- get parsed "explanation" ;;
  explanation <- (if truthy explanation0
                  then option_map Str (cleanFeedbackAny explanation0)
                  else Some explanation0) ;;
  isCorrect0 <- get parsed "isCorrect" ;;
  confidence0 <- get parsed "confidence" ;;
  confidence <- ToNumber confidence0 ;;
  Some (mkStepResult (truthy isCorrect0) feedback explanation
          (clamp 1 (num_or_else confidence (Fin (1 # 2))))).

(** Lines 374-427. *)
Definition parseValidationResponse (response : jsstring)
  : StepValidationResult :=
  match parseValidationResponse_try response with
  | Some result => result
  | None =>
    let cleanedResponse := cleanFeedback response in
    let lower := toLowerCase cleanedResponse in
    let isCorrect := includes lower (utf16 "correct")
                     || includes lower (utf16 "valid")
                     || includes lower (utf16 "true") in
    mkStepResult isCorrect
      (substring0 200 cleanedResponse
         ++ (if 200 <? List.length cleanedResponse then utf16 "..." else []))
      Undefined
      (if isCorrect then Fin (8 # 10) else Fin (3 # 10))
  end.

(** The keyword test of lines 418-420, by name. *)
Definition keywordHit (cleaned : jsstring) : bool :=
  includes (toLowerCase cleaned) (utf16 "correct")
  || includes (toLowerCase cleaned) (utf16 "valid")
  || includes (toLowerCase cleaned) (utf16 "true").

(** Lines 336-372. *)
Definition buildValidationPrompt (latex : jsstring) (context : option jsstring)
  : jsstring :=
  validationPromptHead
    ++ (match context with
        | Some ((_ :: _) as c) => c
        | _ => utf16 "Not provided"
        end)
    ++ validationPromptStep ++ latex ++ validationPromptRules.

(** Lines 25-76. [u] is the outcome of [Math.random] should the heuristic
    validator draw an encouragement. *)
Definition validateMathStep (u : Random) (latex : jsstring)
  (context : option jsstring) : Promise StepValidationResult :=
  async
    (try_catch
       (let prompt := buildValidationPrompt latex context in
        response <- contentOf (groq_create validationSystemPrompt prompt) ;;
        Some (parseValidationResponse response))
       (if negb (isEmpty (trim latex))
        then Some (fallbackValidation u latex)
        else Some (mkStepResult false
                     (utf16 "Unable to validate step. Please check your internet connection and try again.")
                     Undefined (Fin 0)))).

(** Line 650: the quotient and the product are binary64 operations. *)
Definition accuracyOf (totalSteps correctSteps : nat) : Q :=
  if 0 <? totalSteps
  then fl (fl (inject_Z (Z.of_nat correctSteps) / inject_Z (Z.of_nat totalSteps))
           * 100)
  else 0.

Definition countOf (n : nat) : jsstring := N_to_string (N.of_nat n).

(** Lines 635-692. *)
Definition fallbackSolutionEvaluation (originalQuestion : jsstring)
  (steps : list SolutionStep) : SolutionEvaluation :=
  let totalSteps := List.length steps in
  let correctSteps := List.length (filter stepIsCorrect steps) in
  let accuracy := accuracyOf totalSteps correctSteps in
  let score := Math_round (Fin accuracy) in
  let score :=
    if Qeq_bool accuracy 100
    then Math_min (Fin 100)
           (match score with Fin q => Fin (fl (q + 10)) | other => other end)
    else score in
  let tally := countOf correctSteps ++ utf16 "/" ++ countOf totalSteps
               ++ utf16 " steps correct." in
  let '(feedback, suggestions) :=
    if Qle_bool 90 accuracy then
      (utf16 "🎉 Excellent! " ++ tally,
       [ utf16 "Try more complex problems to further challenge yourself";
         utf16 "Consider exploring advanced topics like quadratic equations" ])
    else if Qle_bool 70 accuracy then
      (utf16 "👍 Good! " ++ tally,
       [ utf16 "Review the steps you missed and understand the correct approach";
         utf16 "Practice similar problems to strengthen your skills" ])
    else if Qle_bool 50 accuracy then
      (utf16 "📚 Progress! " ++ tally,
       [ utf16 "Focus on understanding the fundamental algebraic rules";
         utf16 "Break down complex problems into smaller, manageable steps";
         utf16 "Double-check your arithmetic calculations" ])
    else
      (utf16 "💪 Keep going! " ++ tally,
       [ utf16 "Review basic algebraic operations and rules";
         utf16 "Start with simpler problems and gradually increase difficulty";
         utf16 "Don't hesitate to ask for help when you need it" ]) in
  let suggestions :=
    if existsb (fun step => includes (latex step) (utf16 "=")) steps
       && (correctSteps <? totalSteps)
    then suggestions
           ++ [ utf16 "Remember: when moving terms across an equals sign, change their signs" ]
    else suggestions in
  mkEvaluation score feedback suggestions.

Definition orDefault (score : jsnum) (suggestions : list jsstring)
  : list jsstring :=
  match suggestions with
  | [] => generateDefaultSuggestions score
  | _ => suggestions
  end.

Definition nonBlank (s : jsstring) : bool := 0 <? List.length (trim s).

(** The [try] block of [parseSolutionEvaluation], lines 699-768. In the
    strict case [generateDefaultSuggestions] receives [parsed.score || 0],
    which its comparisons convert by ToNumber. *)
Definition parseSolutionEvaluation_try (response : jsstring)
  : option SolutionEvaluation :=
  let cleanedResponse := stripFences response in
  match exec reMalformed cleanedResponse with
  | Some malformedMatch =>
    let score :=
      clamp 100
        (num_or_else
           (match group 1 malformedMatch with
            | Some scoreStr => StringToNumber scoreStr
            | None => NaN
            end) (Fin 0)) in
    let feedback :=
      match group 2 malformedMatch with
      | Some feedbackStr => cleanFeedback feedbackStr
      | None => []
      end in
    suggestionsStr <- group 3 malformedMatch ;;
    let suggestions :=
      if isEmpty (trim suggestionsStr) then []
      else filter nonBlank
             (map (fun s => cleanSuggestion
                              (replace reSurroundingQuotes [] (trim s)))
                  (split suggestionsStr (utf16 ","))) in
    Some (mkEvaluation score feedback (orDefault score suggestions))
  | None =>
    match exec reJsonObject cleanedResponse with
    | Some jsonMatch =>
      parsed <- JSON_parse (repairJson (matched jsonMatch)) ;;
      feedback0 <- get parsed "feedback" ;;
      feedback <- cleanFeedbackAny
                    (or_else feedback0 (Str (utf16 "No feedback provided."))) ;;
      suggestions0 <- get parsed "suggestions" ;;
      suggestions <-
        match suggestions0 with
        | Arr l =>
          cleaned <-
            (fix each (l : list jsval) : option (list jsstring) :=
               match l with
               | [] => Some []
               | suggestion :: l' =>
                 s <- match suggestion with
                      | Str s => Some (cleanSuggestion s)
                      | _ => option_map cleanSuggestion (ToString suggestion)
                      end ;;
                 ss <- each l' ;;
                 Some (s :: ss)
               end) l ;;
          Some (filter nonBlank cleaned)
        | _ => Some []
        end ;;
      score0 <- get parsed "score" ;;
      suggestions <-
        match suggestions with
        | [] => n <- ToNumber (or_else score0 (Num (Fin 0))) ;;
                Some (generateDefaultSuggestions n)
        | _ => Some suggestions
        end ;;
      score <- ToNumber score0 ;;
      Some (mkEvaluation (clamp 100 (num_or_else score (Fin 0))) feedback
              suggestions)
    | None => None
    end
  end.

(** Lines 694-782. *)
Definition parseSolutionEvaluation (response : jsstring) : SolutionEvaluation :=
  match parseSolutionEvaluation_try response with
  | Some result => result
  | None =>
    let score :=
      match exec reScore response with
      | Some scoreMatch =>
        match (match group 1 scoreMatch with
               | Some ((_ :: _) as s) => Some s
               | _ => group 2 scoreMatch
               end) with
        | Some s => StringToNumber s
        | None => NaN
        end
      | None => Fin 50
      end in
    mkEvaluation (clamp 100 score)
      (cleanFeedback (substring0 500 response)
         ++ (if 500 <? List.length response then utf16 "..." else []))
      (generateDefaultSuggestions score)
  end.

Definition stepLine (step : SolutionStep) : jsstring :=
  utf16 "Step " ++ NumberToString (stepNumber step) ++ utf16 ": "
    ++ latex step ++ utf16 " ("
    ++ (if stepIsCorrect step then utf16 "Correct" else utf16 "Incorrect")
    ++ utf16 ")".

(** Lines 589-606. *)
Definition evaluationPrompt (originalQuestion : jsstring)
  (steps : list SolutionStep) : jsstring :=
  evaluationPromptHead ++ originalQuestion ++ evaluationPromptSteps
    ++ join nl (map stepLine steps) ++ evaluationPromptTask.

(** Lines 575-633. *)
Definition evaluateCompleteSolution (originalQuestion : jsstring)
  (steps : list SolutionStep) : Promise SolutionEvaluation :=
  async
    (try_catch
       (let prompt := evaluationPrompt originalQuestion steps in
        response <- contentOf (groq_create evaluationSystemPrompt prompt) ;;
        Some (parseSolutionEvaluation response))
       (Some (fallbackSolutionEvaluation originalQuestion steps))).

End Builtins.
End Service.
Import Service.

(* ================================================================== *)
(** * Reference built-ins *)
(* ================================================================== *)

(** Executable instances of the Section variables, for running the service
    on concrete inputs. *)
Module Reference.

(** ** JSON.parse (ECMA-404) *)

Definition isJsonSpace (c : unit16) : bool :=
  ((c =? 32) || (c =? 9) || (c =? 10) || (c =? 13))%N.

Fixpoint skipWs (s : jsstring) : jsstring :=
  match s with
  | c :: s' => if isJsonSpace c then skipWs s' else s
  | [] => []
  end.

Definition hexValue (c : unit16) : option N :=
  if isDigit c then Some (c - 48)%N
  else if ((97 <=? c) && (c <=? 102))%N then Some (c - 87)%N
  else if ((65 <=? c) && (c <=? 70))%N then Some (c - 55)%N
  else None.

(** The characters of a string after its opening quote: the decoded text and
    what follows the closing quote. *)
Fixpoint stringBody (fuel : nat) (s acc : jsstring)
  : option (jsstring * jsstring) :=
  match fuel with
  | O => None
  | S f =>
    match s with
    | [] => None
    | c :: s' =>
      if (c =? dq)%N then Some (rev acc, s')
      else if (c <? 32)%N then None
      else if (c =? chr "\")%N then
        match s' with
        | e :: s'' =>
          if (e =? dq)%N then stringBody f s'' (dq :: acc)
          else if (e =? chr "\")%N then stringBody f s'' (chr "\" :: acc)
          else if (e =? chr "/")%N then stringBody f s'' (chr "/" :: acc)
          else if (e =? chr "b")%N then stringBody f s'' (8%N :: acc)
          else if (e =? chr "f")%N then stringBody f s'' (12%N :: acc)
          else if (e =? chr "n")%N then stringBody f s'' (10%N :: acc)
          else if (e =? chr "r")%N then stringBody f s'' (13%N :: acc)
          else if (e =? chr "t")%N then stringBody f s'' (9%N :: acc)
          else if (e =? chr "u")%N then
            match s'' with
            | h1 :: h2 :: h3 :: h4 :: s3 =>
              match hexValue h1, hexValue h2, hexValue h3, hexValue h4 with
              | Some a, Some b, Some c', Some d =>
                stringBody f s3 ((a * 4096 + b * 256 + c' * 16 + d)%N :: acc)
              | _, _, _, _ => None
              end
            | _ => None
            end
          else None
        | [] => None
        end
      else stringBody f s' (c :: acc)
    end
  end.

(** A number: its exact decimal value and what follows it. *)
Definition digitsQ (ds : jsstring) : Q := inject_Z (Z.of_N (digits_value ds)).

Definition pow10 (e : Z) : Q :=
  match e with
  | Zneg p => 1 / inject_Z (10 ^ Zpos p)
  | _ => inject_Z (10 ^ e)
  end.

Definition fractionAndExponent (intPart : Q) (s : jsstring)
  : option (Q * jsstring) :=
  let '(mantissa, s1, okFrac) :=
    match s with
    | c :: t =>
      if (c =? chr ".")%N then
        let fs := takeDigits t in
        (intPart + digitsQ fs * pow10 (- Z.of_nat (List.length fs)),
         skipn (List.length fs) t, negb (isEmpty fs))
      else (intPart, s, true)
    | [] => (intPart, s, true)
    end in
  if negb okFrac then None else
  match s1 with
  | c :: t =>
    if ((c =? chr "e") || (c =? chr "E"))%N then
      let '(neg, t1) :=
        match t with
        | g :: t' => if (g =? chr "-")%N then (true, t')
                     else if (g =? chr "+")%N then (false, t') else (false, t)
        | [] => (false, t)
        end in
      let es := takeDigits t1 in
      if isEmpty es then None
      else let e := Z.of_N (digits_value es) in
           Some (mantissa * pow10 (if neg then - e else e),
                 skipn (List.length es) t1)
    else Some (mantissa, s1)
  | [] => Some (mantissa, s1)
  end.

Definition number (s : jsstring) : option (Q * jsstring) :=
  let '(neg, s1) :=
    match s with
    | c :: t => if (c =? chr "-")%N then (true, t) else (false, s)
    | [] => (false, s)
    end in
  let ds := takeDigits s1 in
  match ds with
  | [] => None
  | d :: ds' =>
    if (d =? chr "0")%N && negb (isEmpty ds') then None
    else
      match fractionAndExponent (digitsQ ds) (skipn (List.length ds) s1) with
      | Some (q, s2) => Some (if neg then - q else q, s2)
      | None => None
      end
  end.

Fixpoint value (fuel : nat) (s : jsstring) {struct fuel}
  : option (jsval * jsstring) :=
  match fuel with
  | O => None
  | S f =>
    match skipWs s with
    | [] => None
    | c :: t =>
      if (c =? chr "{")%N then
        match skipWs t with
        | c1 :: t1 =>
          if (c1 =? chr "}")%N then Some (Obj [], t1) else members f (skipWs t) []
        | [] => None
        end
      else if (c =? chr "[")%N then
        match skipWs t with
        | c1 :: t1 =>
          if (c1 =? chr "]")%N then Some (Arr [], t1) else elements f t []
        | [] => None
        end
      else if (c =? dq)%N then
        match stringBody (List.length t) t [] with
        | Some (str, t1) => Some (Str str, t1)
        | None => None
        end
      else if startsWith (utf16 "true") (c :: t) then Some (Bool true, skipn 3 t)
      else if startsWith (utf16 "false") (c :: t) then Some (Bool false, skipn 4 t)
      else if startsWith (utf16 "null") (c :: t) then Some (Null, skipn 3 t)
      else
        match number (c :: t) with
        | Some (q, t1) => Some (Num (Fin q), t1)
        | None => None
        end
    end
  end
with elements (fuel : nat) (s : jsstring) (acc : list jsval) {struct fuel}
  : option (jsval * jsstring) :=
  match fuel with
  | O => None
  | S f =>
    match value f s with
    | Some (v, t) =>
      match skipWs t with
      | c :: t1 =>
        if (c =? chr ",")%N then elements f t1 (v :: acc)
        else if (c =? chr "]")%N then Some (Arr (rev (v :: acc)), t1)
        else None
      | [] => None
      end
    | None => None
    end
  end
with members (fuel : nat) (s : jsstring) (acc : list (jsstring * jsval))
  {struct fuel} : option (jsval * jsstring) :=
  match fuel with
  | O => None
  | S f =>
    match s with
    | q :: t =>
      if (q =? dq)%N then
        match stringBody (List.length t) t [] with
        | Some (key, t1) =>
          match skipWs t1 with
          | colon :: t2 =>
            if (colon =? chr ":")%N then
              match value f t2 with
              | Some (v, t3) =>
                match skipWs t3 with
                | c :: t4 =>
                  if (c =? chr ",")%N then members f (skipWs t4) ((key, v) :: acc)
                  else if (c =? chr "}")%N
                  then Some (Obj (rev ((key, v) :: acc)), t4)
                  else None
                | [] => None
                end
              | None => None
              end
            else None
          | [] => None
          end
        | None => None
        end
      else None
    | [] => None
    end
  end.

Definition JSON_parse (text : jsstring) : option jsval :=
  match value (S (List.length text)) text with
  | Some (v, t) => match skipWs t with [] => Some v | _ => None end
  | None => None
  end.

(** ** StringToNumber (7.1.4.1.1); the value of a literal is exact. *)
Definition radixValue (radix : N) (s : jsstring) : jsnum :=
  let digitOf c := match hexValue c with
                   | Some d => if (d <? radix)%N then Some d else None
                   | None => None
                   end in
  match s with
  | [] => NaN
  | _ =>
    match fold_left (fun acc c =>
                       match acc, digitOf c with
                       | Some a, Some d => Some (a * radix + d)%N
                       | _, _ => None
                       end) s (Some 0%N) with
    | Some v => Fin (inject_Z (Z.of_N v))
    | None => NaN
    end
  end.

Definition unsignedDecimal (s : jsstring) : jsnum :=
  if JsString.eqb s (utf16 "Infinity") then PosInf
  else
    let ds := takeDigits s in
    let s1 := skipn (List.length ds) s in
    match ds, s1 with
    | [], [] => NaN
    | [], c :: t =>
      if (c =? chr ".")%N && isDigit (hd 0%N t) then
        match fractionAndExponent 0 s1 with
        | Some (q, []) => Fin q
        | _ => NaN
        end
      else NaN
    | _ :: _, c :: t =>
      if (c =? chr ".")%N && negb (isDigit (hd 0%N t)) then
        match fractionAndExponent (digitsQ ds) t with
        | Some (q, []) => Fin q
        | _ => NaN
        end
      else
        match fractionAndExponent (digitsQ ds) s1 with
        | Some (q, []) => Fin q
        | _ => NaN
        end
    | _ :: _, [] => Fin (digitsQ ds)
    end.

Definition negateNum (n : jsnum) : jsnum :=
  match n with
  | Fin q => Fin (- q)
  | PosInf => NegInf
  | NegInf => PosInf
  | NaN => NaN
  end.

Definition StringToNumber (s : jsstring) : jsnum :=
  match trim s with
  | [] => Fin 0
  | c :: t =>
    if (c =? chr "-")%N then negateNum (unsignedDecimal t)
    else if (c =? chr "+")%N then unsignedDecimal t
    else if startsWith (utf16 "0x") (c :: t) || startsWith (utf16 "0X") (c :: t)
    then radixValue 16 (skipn 1 t)
    else if startsWith (utf16 "0o") (c :: t) || startsWith (utf16 "0O") (c :: t)
    then radixValue 8 (skipn 1 t)
    else if startsWith (utf16 "0b") (c :: t) || startsWith (utf16 "0B") (c :: t)
    then radixValue 2 (skipn 1 t)
    else unsignedDecimal (c :: t)
  end.

(** ** Number::toString (6.1.6.1.20): NaN, the infinities, and the decimal
    expansion of a finite number, cut after twenty fraction digits. It is
    the numeral of JavaScript for the integers below 10^21. *)
Fixpoint fractionDigits (fuel : nat) (r : Q) : jsstring :=
  match fuel with
  | O => []
  | S f =>
    if Qeq_bool r 0 then []
    else let d := Qfloor (r * 10) in
         (48 + Z.to_N d)%N :: fractionDigits f (r * 10 - inject_Z d)
  end.

Definition NumberToString (n : jsnum) : jsstring :=
  match n with
  | NaN => utf16 "NaN"
  | PosInf => utf16 "Infinity"
  | NegInf => utf16 "-Infinity"
  | Fin q =>
    let a := Qabs q in
    let whole := Qfloor a in
    let frac := fractionDigits 20 (Qred (a - inject_Z whole)) in
    (if Qle_bool 0 q then [] else utf16 "-")
      ++ Z_to_string whole
      ++ (match frac with [] => [] | _ => chr "." :: frac end)
  end.

(** ** toLowerCase on the letters of ASCII *)
Definition toLowerCase (s : jsstring) : jsstring := map lowerAscii s.

(** ** Arithmetic without rounding error *)
Definition fl (q : Q) : Q := q.

End Reference.

(* ================================================================== *)
(** * Shapes of steps *)
(* ================================================================== *)

(** The vocabulary of the statements about steps of a given shape. *)
Module Shape.

Definition all (p : charset) (s : jsstring) : Prop :=
  Forall (fun u => p u = true) s.

(** [s] is empty or starts with a unit outside [p]. *)
Definition stops (p : charset) (s : jsstring) : Prop :=
  match s with
  | [] => True
  | u :: _ => p u = false
  end.

(** A numeral: a non-empty run of decimal digits. *)
Definition numeral (s : jsstring) : Prop := s <> [] /\ all isDigit s.

(** A possibly empty run of white space. *)
Definition blank (s : jsstring) : Prop := all isSpace s.

Definition lacks (u : unit16) (s : jsstring) : Prop := ~ In u s.

Definition backtick : unit16 := chr "`".
Definition backslash : unit16 := chr "\".

(** numeral = numeral + numeral, with any white space between the tokens. *)
Definition sumStep (a ws1 ws2 b ws3 ws4 c : jsstring) : jsstring :=
  a ++ ws1 ++ utf16 "=" ++ ws2 ++ b ++ ws3 ++ utf16 "+" ++ ws4 ++ c.

(** numeral sign numeral = numeral *)
Definition calculationStep (a ws1 : jsstring) (op : unit16)
  (ws2 b ws3 ws4 c : jsstring) : jsstring :=
  a ++ ws1 ++ [op] ++ ws2 ++ b ++ ws3 ++ utf16 "=" ++ ws4 ++ c.

(** The value a calculation should state. *)
Definition calculated (a : jsstring) (op : unit16) (b : jsstring) : Z :=
  if (op =? chr "+")%N
  then Z.of_N (digits_value a) + Z.of_N (digits_value b)
  else Z.of_N (digits_value a) - Z.of_N (digits_value b).

End Shape.
Import Shape.

(* ================================================================== *)
(** * Properties *)
(* ================================================================== *)

(** ** The embedding at work *)

Example utf16_emoji : utf16 "🎯 ok" = [55356; 57263; 32; 111; 107]%N.
Proof. reflexivity. Qed.

Example utf16_bmp : utf16 "✅√" = [9989; 8730]%N.
Proof. reflexivity. Qed.

Example trim_example : trim (utf16 "  2x = 8 ") = utf16 "2x = 8".
Proof. reflexivity. Qed.

Example split_example :
  split (utf16 "a,b,,c") (utf16 ",") = [utf16 "a"; utf16 "b"; []; utf16 "c"].
Proof. reflexivity. Qed.

Example exec_groups :
  option_map groups (exec reArithmetic (utf16 "11 - 3 = 8"))
  = Some [(4, utf16 "8"); (3, utf16 "3"); (2, utf16 "-"); (1, utf16 "11")]%nat.
Proof. reflexivity. Qed.

Example exec_backreference :
  test reVerification (utf16 "11 = 11") = true /\
  test reVerification (utf16 "11 = 12") = false.
Proof. split; reflexivity. Qed.

Example exec_alternative :
  option_map groups (exec reScore (utf16 "Score: 85 of 100"))
  = Some [(2%nat, utf16 "85")].
Proof. reflexivity. Qed.

Example replace_global :
  replace reSpaces (utf16 " ") (utf16 "2x   +  3") = utf16 "2x + 3".
Proof. reflexivity. Qed.

Example splitRe_example :
  splitRe reFieldSeparator (utf16 "score: 90, feedback: fine")
  = [[]; utf16 "90,"; utf16 "fine"].
Proof. reflexivity. Qed.

Example stripFences_example :
  stripFences (utf16 "```json" ++ nl ++ utf16 "{}" ++ nl ++ utf16 "```") = utf16 "{}".
Proof. reflexivity. Qed.

Example JSON_parse_example :
  Reference.JSON_parse (utf16 "{" ++ [dq] ++ utf16 "score" ++ [dq] ++ utf16 ": 85, "
                          ++ [dq] ++ utf16 "ok" ++ [dq] ++ utf16 ": [true, null]}")
  = Some (Obj [(utf16 "score", Num (Fin 85));
               (utf16 "ok", Arr [Bool true; Null])]).
Proof. reflexivity. Qed.

Example cleanSuggestion_example :
  cleanSuggestion Reference.toLowerCase (utf16 "- Verify by substitution")
  = utf16 "💡 by substitution".
Proof. reflexivity. Qed.

(** ** Strings *)

Lemma eqb_eq (s t : jsstring) : JsString.eqb s t = true <-> s = t.
Proof.
  unfold JsString.eqb. destruct (list_eq_dec N.eq_dec s t); split; congruence.
Qed.

Lemma startsWith_app (p s : jsstring) : startsWith p (p ++ s) = true.
Proof.
  induction p as [|a p IH]; simpl; [reflexivity|].
  now rewrite N.eqb_refl, IH.
Qed.

Lemma includes_startsWith (p s : jsstring) :
  startsWith p s = true -> includes s p = true.
Proof. intros H. destruct s; simpl; now rewrite H. Qed.

Lemma includes_app (a p b : jsstring) : includes (a ++ p ++ b) p = true.
Proof.
  induction a as [|u a IH]; simpl.
  - apply includes_startsWith, startsWith_app.
  - rewrite IH. apply orb_true_r.
Qed.

Lemma includes_decompose (s p : jsstring) :
  includes s p = true -> exists a b, s = a ++ p ++ b.
Proof.
  assert (SW : forall p s, startsWith p s = true -> exists b, s = p ++ b).
  { clear. induction p as [|a p IH]; intros s H.
    - now exists s.
    - destruct s as [|u s]; [discriminate|]. simpl in H.
      apply andb_prop in H as [H1 H2]. apply N.eqb_eq in H1. subst u.
      destruct (IH _ H2) as [b ->]. now exists b. }
  induction s as [|u s IH]; simpl; intros H.
  - rewrite orb_false_r in H. destruct (SW _ _ H) as [b Hb].
    exists [], b. exact Hb.
  - apply orb_prop in H as [H|H].
    + destruct (SW _ _ H) as [b Hb]. exists [], b. exact Hb.
    + destruct (IH H) as (a & b & ->). now exists (u :: a), b.
Qed.

(** A text that holds the longer word holds each word inside it. *)
Lemma includes_inner (s p1 p p2 : jsstring) :
  includes s (p1 ++ p ++ p2) = true -> includes s p = true.
Proof.
  intros H. destruct (includes_decompose _ _ H) as (a & b & ->).
  replace (a ++ (p1 ++ p ++ p2) ++ b) with ((a ++ p1) ++ p ++ (p2 ++ b))
    by (now rewrite <- !app_assoc).
  apply includes_app.
Qed.

(** ** Random choice *)

Lemma randomIndex_lt (u : Random) (len : nat) :
  (0 < len)%nat -> (randomIndex u len < len)%nat.
Proof.
  intros Hlen. unfold randomIndex.
  assert (P : (0 < 2 ^ rexp u)%N) by (apply N.neq_0_lt_0, N.pow_nonzero; discriminate).
  assert (M : (rnum u mod 2 ^ rexp u < 2 ^ rexp u)%N) by (apply N.mod_lt; lia).
  assert (D : (rnum u mod 2 ^ rexp u * N.of_nat len / 2 ^ rexp u < N.of_nat len)%N).
  { apply N.Div0.div_lt_upper_bound. nia. }
  lia.
Qed.

Lemma pick_In (u : Random) (pool : list jsstring) :
  pool <> [] -> In (pick u pool) pool.
Proof.
  intros H. unfold pick. apply nth_In, randomIndex_lt.
  destruct pool; [congruence|simpl; lia].
Qed.

(** ** The heuristic validator *)

(** Case analysis on the innermost tests of the goal. *)
Ltac split_cases :=
  repeat match goal with
         | |- context [match ?e with _ => _ end] =>
           lazymatch e with
           | context [match _ with _ => _ end] => fail
           | _ => destruct e
           end
         end.

(** Membership in a list given by its elements, by their names. *)
Ltac in_list :=
  repeat lazymatch goal with
         | |- ?a = ?a \/ _ => left; reflexivity
         | |- ?a = ?a => reflexivity
         | |- _ \/ _ => right
         end.

Lemma within_const (lo hi q : Q) :
  Qle_bool lo q = true -> Qle_bool q hi = true -> within lo hi (Fin q).
Proof. intros A B. split; now apply Qle_bool_iff. Qed.

Lemma checkForCommonMistakes_confidence (step : jsstring) (v : StepValidationResult) :
  checkForCommonMistakes step = Some v -> within 0 1 (confidence v).
Proof.
  unfold checkForCommonMistakes. cbv zeta.
  split_cases; intros H; inversion H; subst; now apply within_const.
Qed.

Lemma getStepSpecificFeedback_confidence (u : Random) (step : jsstring) :
  within 0 1 (confidence (getStepSpecificFeedback u step)).
Proof.
  unfold getStepSpecificFeedback, encouragement. cbv zeta.
  split_cases; now apply within_const.
Qed.

Lemma fallbackValidation_confidence (u : Random) (latex : jsstring) :
  within 0 1 (confidence (fallbackValidation u latex)).
Proof.
  unfold fallbackValidation. cbv zeta.
  destruct (checkForCommonMistakes _) eqn:E.
  - eapply checkForCommonMistakes_confidence, E.
  - destruct (isValidAlgebraStep _).
    + apply getStepSpecificFeedback_confidence.
    + split_cases; now apply within_const.
Qed.

(** The rule that answers depends on the step alone: either the whole
    result is fixed, or the step selects one pool of encouragements and a
    confidence, and the draw only selects the wording in the pool. *)
Lemma getStepSpecificFeedback_category (step : jsstring) :
  (exists v, forall u, getStepSpecificFeedback u step = v) \/
  (exists pool conf, In pool encouragementPools /\
     forall u, getStepSpecificFeedback u step = encouragement u pool conf).
Proof.
  unfold getStepSpecificFeedback, encouragementPools. cbv zeta.
  split_cases;
    lazymatch goal with
    | |- (exists v, forall u, encouragement u ?pool ?conf = v) \/ _ =>
      right; exists pool, conf; split; [|intros; reflexivity];
      cbn [In]; in_list
    | |- _ => left; eexists; intros; reflexivity
    end.
Qed.

Lemma fallbackValidation_category (latex : jsstring) :
  (exists v, forall u, fallbackValidation u latex = v) \/
  (exists pool conf, In pool encouragementPools /\
     forall u, fallbackValidation u latex = encouragement u pool conf).
Proof.
  unfold fallbackValidation. cbv zeta.
  destruct (checkForCommonMistakes _).
  - left. eexists. intros. reflexivity.
  - destruct (isValidAlgebraStep _).
    + apply getStepSpecificFeedback_category.
    + left. eexists. intros. reflexivity.
Qed.

Lemma encouragementPools_nonempty (pool : list jsstring) :
  In pool encouragementPools -> pool <> [].
Proof.
  unfold encouragementPools. simpl.
  intros H; repeat destruct H as [H|H]; subst; try discriminate; contradiction.
Qed.

(** C7. Two runs of the heuristic validator on the same step, with any two
    outcomes of the random draw, give the same verdict, the same confidence
    and the same explanation; their feedback texts are equal or lie in one
    and the same pool of encouragements, the one the step selects. *)
Theorem fallbackValidation_deterministic_verdict (latex : jsstring) (u1 u2 : Random) :
  let r1 := fallbackValidation u1 latex in
  let r2 := fallbackValidation u2 latex in
  isCorrect r1 = isCorrect r2 /\
  confidence r1 = confidence r2 /\
  explanation r1 = explanation r2 /\
  (feedback r1 = feedback r2 \/
   exists pool, In pool encouragementPools /\
                In (feedback r1) pool /\ In (feedback r2) pool).
Proof.
  cbv zeta.
  destruct (fallbackValidation_category latex) as [[v Hv]|(pool & conf & Hin & Hp)].
  - rewrite (Hv u1), (Hv u2). repeat split; auto.
  - rewrite (Hp u1), (Hp u2). unfold encouragement.
    cbn [isCorrect confidence feedback explanation].
    repeat split; auto. right. exists pool.
    pose proof (encouragementPools_nonempty Hin).
    repeat split; auto using pick_In.
Qed.

(** C6. The self-equality [11 = 11] is accepted with confidence 0.95, and
    the feedback is one of the verification encouragements. *)
Theorem verification_step_accepted (u : Random) :
  let r := fallbackValidation u (utf16 "11 = 11") in
  isCorrect r = true /\
  confidence r = Fin (95 # 100) /\
  within (9 # 10) 1 (confidence r) /\
  In (feedback r) poolVerification.
Proof.
  cbv zeta.
  assert (E : fallbackValidation u (utf16 "11 = 11")
              = encouragement u poolVerification (95 # 100))
    by (vm_compute; reflexivity).
  rewrite E. unfold encouragement. cbn [isCorrect confidence feedback].
  split; [reflexivity|]. split; [reflexivity|]. split.
  - now apply within_const.
  - apply pick_In. discriminate.
Qed.

(** ** The matcher on runs of a class *)

Section Runs.

Variable ic : bool.
Variable cs : charset.
Let p : charset := charMatches ic cs.

Lemma m_Char_cons i u s caps c :
  m ic (Char cs) (mkState i (u :: s) caps) c
  = if p u then c (mkState (i + 1) s caps) else None.
Proof. reflexivity. Qed.

Lemma m_Char_stops i R caps c :
  stops p R -> m ic (Char cs) (mkState i R caps) c = None.
Proof.
  destruct R as [|u R]; simpl; [reflexivity|].
  intros H. fold (p u). now rewrite H.
Qed.

(** The star stops at once where the class does not match. *)
Lemma repeat_stops fuel i R caps c :
  stops p R ->
  repeatMatcher (m ic (Char cs)) c fuel (mkState i R caps) = c (mkState i R caps).
Proof.
  intros H. destruct fuel; simpl; [reflexivity|].
  destruct R as [|u R]; simpl; [reflexivity|].
  simpl in H. fold (p u). now rewrite H.
Qed.

(** When the continuation fails after every non-empty part of the run, the
    star hands over the state it started from. *)
Lemma repeat_skip B : forall fuel i R caps c,
  all p B -> stops p R -> (List.length B < fuel)%nat ->
  (forall B1 B2, B = B1 ++ B2 -> B1 <> [] ->
     c (mkState (i + List.length B1) (B2 ++ R) caps) = None) ->
  repeatMatcher (m ic (Char cs)) c fuel (mkState i (B ++ R) caps)
  = c (mkState i (B ++ R) caps).
Proof.
  induction B as [|u B IH]; intros fuel i R caps c HB HR Hf Hc.
  - now apply repeat_stops.
  - destruct fuel as [|fuel]; [simpl in Hf; lia|].
    inversion HB as [|? ? Hu HB']; subst.
    cbn [repeatMatcher app]. rewrite m_Char_cons, Hu.
    cbn [endIndex]. replace (Nat.eqb (i + 1) i) with false
      by (symmetry; apply Nat.eqb_neq; lia).
    rewrite IH; auto; [|simpl in Hf; lia|].
    + specialize (Hc [u] B eq_refl). simpl in Hc. rewrite Hc; [reflexivity|discriminate].
    + intros B1 B2 E NE. specialize (Hc (u :: B1) B2).
      simpl in Hc. replace (i + 1 + List.length B1)%nat with (i + S (List.length B1))%nat by lia.
      apply Hc; [now rewrite E|discriminate].
Qed.

(** Greedy choice: the star takes the longest part of the run after which
    the continuation succeeds. *)
Lemma repeat_greedy A : forall B fuel i R caps c z,
  all p A -> all p B -> stops p R ->
  (List.length A + List.length B < fuel)%nat ->
  c (mkState (i + List.length A) (B ++ R) caps) = Some z ->
  (forall B1 B2, B = B1 ++ B2 -> B1 <> [] ->
     c (mkState (i + List.length A + List.length B1) (B2 ++ R) caps) = None) ->
  repeatMatcher (m ic (Char cs)) c fuel (mkState i (A ++ B ++ R) caps) = Some z.
Proof.
  induction A as [|u A IH]; intros B fuel i R caps c z HA HB HR Hf Hz Hc.
  - cbn [app List.length] in *. rewrite Nat.add_0_r in *.
    rewrite repeat_skip; auto.
  - destruct fuel as [|fuel]; [simpl in Hf; lia|].
    inversion HA as [|? ? Hu HA']; subst.
    cbn [repeatMatcher app]. rewrite m_Char_cons, Hu.
    cbn [endIndex]. replace (Nat.eqb (i + 1) i) with false
      by (symmetry; apply Nat.eqb_neq; lia).
    rewrite (IH B fuel (i + 1)%nat R caps c z); auto.
    + simpl in Hf; lia.
    + rewrite <- Hz. f_equal. f_equal. simpl. lia.
    + intros B1 B2 E NE. rewrite <- (Hc B1 B2 E NE). f_equal. f_equal. simpl. lia.
Qed.

Lemma star_greedy A B i R caps c z :
  all p A -> all p B -> stops p R ->
  c (mkState (i + List.length A) (B ++ R) caps) = Some z ->
  (forall B1 B2, B = B1 ++ B2 -> B1 <> [] ->
     c (mkState (i + List.length A + List.length B1) (B2 ++ R) caps) = None) ->
  m ic (Star (Char cs)) (mkState i (A ++ B ++ R) caps) c = Some z.
Proof.
  intros. cbn [m rest]. apply repeat_greedy; auto.
  rewrite !length_app. lia.
Qed.

(** The whole run is taken when the continuation succeeds after it. *)
Lemma star_run A i R caps c z :
  all p A -> stops p R ->
  c (mkState (i + List.length A) R caps) = Some z ->
  m ic (Star (Char cs)) (mkState i (A ++ R) caps) c = Some z.
Proof.
  intros HA HR Hz.
  apply (@star_greedy A [] i R caps c z); auto.
  - constructor.
  - intros B1 B2 E NE. destruct B1; [congruence|discriminate].
Qed.

Lemma plus_run A i R caps c z :
  A <> [] -> all p A -> stops p R ->
  c (mkState (i + List.length A) R caps) = Some z ->
  m ic (Plus (Char cs)) (mkState i (A ++ R) caps) c = Some z.
Proof.
  intros NE HA HR Hz. destruct A as [|u A]; [congruence|].
  inversion HA as [|? ? Hu HA']; subst.
  unfold Plus. cbn [m app rest]. fold (p u). rewrite Hu.
  change (advance 1 (mkState i (u :: A ++ R) caps)) with (mkState (i + 1) (A ++ R) caps).
  change (repeatMatcher (m ic (Char cs)) c (S (List.length (A ++ R))) (mkState (i + 1) (A ++ R) caps))
    with (m ic (Star (Char cs)) (mkState (i + 1) (A ++ R) caps) c).
  apply star_run; auto.
  rewrite <- Hz. f_equal. f_equal. simpl. lia.
Qed.

(** The star fails when the continuation fails after every part of the run. *)
Lemma star_none A i R caps c :
  all p A -> stops p R ->
  (forall A1 A2, A = A1 ++ A2 ->
     c (mkState (i + List.length A1) (A2 ++ R) caps) = None) ->
  m ic (Star (Char cs)) (mkState i (A ++ R) caps) c = None.
Proof.
  intros HA HR Hc. cbn [m rest]. rewrite repeat_skip; auto.
  - specialize (Hc [] A eq_refl). simpl in Hc. now rewrite Nat.add_0_r in Hc.
  - rewrite length_app. lia.
Qed.

(** What a successful star or plus of a class has consumed. *)
Lemma repeat_inv fuel : forall x c z,
  repeatMatcher (m ic (Char cs)) c fuel x = Some z ->
  exists A R, rest x = A ++ R /\ all p A /\
              c (mkState (endIndex x + List.length A) R (captures x)) = Some z.
Proof.
  induction fuel as [|fuel IH]; intros [i s caps] c z H; cbn [repeatMatcher] in H.
  - exists [], s. cbn. rewrite Nat.add_0_r. repeat split; auto. constructor.
  - destruct s as [|u s].
    + cbn in H. exists [], []. cbn. rewrite Nat.add_0_r. repeat split; auto. constructor.
    + rewrite m_Char_cons in H. destruct (p u) eqn:Hu.
      * cbn [endIndex] in H.
        replace (Nat.eqb (i + 1) i) with false in H
          by (symmetry; apply Nat.eqb_neq; lia).
        destruct (repeatMatcher _ _ _ _) eqn:E in H.
        -- inversion H; subst. apply IH in E as (A & R & E1 & E2 & E3).
           cbn in E1, E3. exists (u :: A), R. cbn. subst s.
           repeat split; auto; [constructor; auto|].
           rewrite <- E3. f_equal. f_equal. lia.
        -- exists [], (u :: s). cbn. rewrite Nat.add_0_r. repeat split; auto. constructor.
      * exists [], (u :: s). cbn. rewrite Nat.add_0_r. repeat split; auto. constructor.
Qed.

Lemma plus_inv i s caps c z :
  m ic (Plus (Char cs)) (mkState i s caps) c = Some z ->
  exists A R, s = A ++ R /\ A <> [] /\ all p A /\
              c (mkState (i + List.length A) R caps) = Some z.
Proof.
  unfold Plus. cbn [m rest]. destruct s as [|u s]; [discriminate|].
  fold (p u). destruct (p u) eqn:Hu; [|discriminate].
  intros H. apply repeat_inv in H as (A & R & E1 & E2 & E3).
  cbn in E1, E3. exists (u :: A), R. subst s. cbn.
  repeat split; auto; [discriminate|constructor; auto|].
  rewrite <- E3. f_equal. f_equal. lia.
Qed.

End Runs.

(** ** The matcher, one construct at a time *)

Lemma m_Seq ic r1 r2 x c :
  m ic (Seq r1 r2) x c = m ic r1 x (fun y => m ic r2 y c).
Proof. reflexivity. Qed.

Lemma m_Alt ic r1 r2 x c :
  m ic (Alt r1 r2) x c
  = match m ic r1 x c with Some z => Some z | None => m ic r2 x c end.
Proof. reflexivity. Qed.

Lemma m_Group ic n r x c :
  m ic (Group n r) x c
  = m ic r x (fun y =>
      c (mkState (endIndex y) (rest y)
           ((n, firstn (endIndex y - endIndex x) (rest x)) :: captures y))).
Proof. reflexivity. Qed.

Lemma m_Bol ic s caps c : m ic Bol (mkState 0 s caps) c = c (mkState 0 s caps).
Proof. reflexivity. Qed.

Lemma m_Bol_later ic i s caps c : m ic Bol (mkState (S i) s caps) c = None.
Proof. reflexivity. Qed.

Lemma m_Eol ic i caps c : m ic Eol (mkState i [] caps) c = c (mkState i [] caps).
Proof. reflexivity. Qed.

Lemma m_Opt_skip ic cs i R caps c :
  stops (charMatches ic cs) R ->
  m ic (Opt (Char cs)) (mkState i R caps) c = c (mkState i R caps).
Proof. intros H. unfold Opt. rewrite m_Alt, m_Char_stops; auto. Qed.

Lemma firstn_run (A R : jsstring) (i : nat) :
  firstn (i + List.length A - i) (A ++ R) = A.
Proof.
  replace (i + List.length A - i)%nat with (List.length A + 0)%nat by lia.
  rewrite firstn_app_2. simpl. apply app_nil_r.
Qed.

(** ** Searching *)

Lemma execFrom_hit R i s y :
  matchAt R i s = Some y ->
  execFrom R i s
  = Some (mkResult i (firstn (endIndex y - i) s) (rest y) (captures y)).
Proof. intros H. destruct s; simpl; now rewrite H. Qed.

Lemma test_hit R s y : matchAt R 0 s = Some y -> test R s = true.
Proof. intros H. unfold test, exec. now rewrite (execFrom_hit _ _ _ H). Qed.

(** A pattern that starts with the assertion of the beginning matches at
    index 0 or nowhere. *)
Lemma execFrom_Bol_later ic r g s : forall i,
  execFrom (mkRegExp (Seq Bol r) ic g) (S i) s = None.
Proof.
  induction s as [|u s IH]; intros i; simpl; unfold matchAt; simpl; auto.
Qed.

Lemma exec_Bol_miss ic r g s :
  matchAt (mkRegExp (Seq Bol r) ic g) 0 s = None ->
  exec (mkRegExp (Seq Bol r) ic g) s = None.
Proof.
  intros H. unfold exec. destruct s as [|u s]; simpl; rewrite H; auto.
  apply execFrom_Bol_later.
Qed.

(** ** Classes that exclude one another *)

Lemma digit_not_space u : isDigit u = true -> isSpace u = false.
Proof.
  unfold isDigit, isSpace. intros H.
  apply andb_prop in H as [H1 H2]. apply N.leb_le in H1, H2.
  repeat match goal with
         | |- context [(?a =? ?b)%N] =>
           replace (a =? b)%N with false by (symmetry; apply N.eqb_neq; lia)
         | |- context [(?a <=? ?b)%N] =>
           first [ replace (a <=? b)%N with true by (symmetry; apply N.leb_le; lia)
                 | replace (a <=? b)%N with false by (symmetry; apply N.leb_gt; lia) ]
         end.
  reflexivity.
Qed.

Lemma space_not_digit u : isSpace u = true -> isDigit u = false.
Proof.
  intros H. destruct (isDigit u) eqn:E; auto.
  apply digit_not_space in E. congruence.
Qed.

Lemma digit_not_unit u v :
  isDigit u = true -> isDigit v = false -> Regex.unit v u = false.
Proof.
  intros H1 H2. unfold Regex.unit. apply N.eqb_neq. intros ->. congruence.
Qed.

Lemma space_not_unit u v :
  isSpace u = true -> isSpace v = false -> Regex.unit v u = false.
Proof.
  intros H1 H2. unfold Regex.unit. apply N.eqb_neq. intros ->. congruence.
Qed.

Lemma charMatches_plain cs u : charMatches false cs u = cs u.
Proof. unfold charMatches. simpl. apply orb_false_r. Qed.

(** ** Runs and what follows them *)

Lemma all_plain cs s : all cs s -> all (charMatches false cs) s.
Proof.
  unfold all. intros H. eapply Forall_impl; [|exact H].
  intros u Hu. now rewrite charMatches_plain.
Qed.

Lemma all_plain_inv cs s : all (charMatches false cs) s -> all cs s.
Proof.
  unfold all. intros H. eapply Forall_impl; [|exact H].
  intros u Hu. cbv beta in Hu. now rewrite charMatches_plain in Hu.
Qed.

Lemma stops_plain cs s : stops cs s -> stops (charMatches false cs) s.
Proof. destruct s; simpl; auto. intros H. now rewrite charMatches_plain. Qed.

(** What stops [q] after a run of [p] when [p] excludes [q]. *)
Lemma stops_run (p q : charset) A R :
  (forall u, p u = true -> q u = false) ->
  all p A -> stops q R -> stops q (A ++ R).
Proof.
  intros D HA HR. destruct A as [|u A]; simpl; auto.
  inversion HA; subst. auto.
Qed.

Lemma stops_numeral (q : charset) A R :
  (forall u, isDigit u = true -> q u = false) ->
  numeral A -> stops q (A ++ R).
Proof.
  intros D [NE HA]. destruct A as [|u A]; [congruence|]. simpl.
  inversion HA; subst. auto.
Qed.

Lemma stops_numeral_end (q : charset) A :
  (forall u, isDigit u = true -> q u = false) ->
  numeral A -> stops q A.
Proof. intros D H. rewrite <- (app_nil_r A). now apply stops_numeral. Qed.

(** ** Trimming *)

Lemma trimStart_stops s : stops isSpace s -> trimStart s = s.
Proof. destruct s; simpl; auto. intros ->. reflexivity. Qed.

Lemma trim_stops s : stops isSpace s -> stops isSpace (rev s) -> trim s = s.
Proof.
  intros H1 H2. unfold trim, trimEnd.
  rewrite (trimStart_stops _ H1), (trimStart_stops _ H2). apply rev_involutive.
Qed.

Lemma all_rev p s : all p s -> all p (rev s).
Proof. unfold all. apply Forall_rev. Qed.

Lemma stops_rev_numeral X c : numeral c -> stops isSpace (rev (X ++ c)).
Proof.
  intros [NE Hc]. rewrite rev_app_distr.
  apply stops_numeral; [exact digit_not_space|]. split.
  - intros E. apply NE. rewrite <- (rev_involutive c), E. reflexivity.
  - now apply all_rev.
Qed.

Lemma star_all ic cs A i caps c z :
  all (charMatches ic cs) A ->
  c (mkState (i + List.length A) [] caps) = Some z ->
  m ic (Star (Char cs)) (mkState i A caps) c = Some z.
Proof.
  intros HA Hz. rewrite <- (app_nil_r A) at 1. apply star_run; simpl; auto.
Qed.

Lemma plus_all ic cs A i caps c z :
  A <> [] -> all (charMatches ic cs) A ->
  c (mkState (i + List.length A) [] caps) = Some z ->
  m ic (Plus (Char cs)) (mkState i A caps) c = Some z.
Proof.
  intros NE HA Hz. rewrite <- (app_nil_r A) at 1. apply plus_run; simpl; auto.
Qed.

Lemma space_excludes (q : charset) :
  (forall v, q v = true -> isSpace v = false) ->
  forall u, isSpace u = true -> q u = false.
Proof.
  intros D u Hu. destruct (q u) eqn:E; auto. apply D in E. congruence.
Qed.

Lemma digit_excludes (q : charset) :
  (forall v, q v = true -> isDigit v = false) ->
  forall u, isDigit u = true -> q u = false.
Proof.
  intros D u Hu. destruct (q u) eqn:E; auto. apply D in E. congruence.
Qed.

Lemma one_is a (p : charset) v : p (chr a) = false -> one a v = true -> p v = false.
Proof. unfold one. intros H E. apply N.eqb_eq in E. now subst v. Qed.

Lemma oneOf_is s (p : charset) v :
  forallb (fun w => negb (p w)) (utf16 s) = true -> oneOf s v = true -> p v = false.
Proof.
  unfold oneOf. intros H E. apply existsb_exists in E as (w & Hw & E).
  apply N.eqb_eq in E. subst w. rewrite forallb_forall in H.
  apply H in Hw. now apply negb_true_iff in Hw.
Qed.

(** Side conditions of the lemmas on runs. *)
Ltac excludes :=
  lazymatch goal with
  | |- forall u, isDigit u = true -> isSpace u = false => exact digit_not_space
  | |- forall u, isSpace u = true -> isDigit u = false => exact space_not_digit
  | |- forall u, isSpace u = true -> one _ u = false =>
    apply space_excludes; intros v; apply one_is; reflexivity
  | |- forall u, isDigit u = true -> one _ u = false =>
    apply digit_excludes; intros v; apply one_is; reflexivity
  | |- forall u, isSpace u = true -> oneOf _ u = false =>
    apply space_excludes; intros v; apply oneOf_is; reflexivity
  | |- forall u, isDigit u = true -> oneOf _ u = false =>
    apply digit_excludes; intros v; apply oneOf_is; reflexivity
  end.

Ltac stops_plain :=
  lazymatch goal with
  | |- stops _ [] => exact I
  | |- stops _ (_ :: _) => reflexivity
  | |- stops _ (?A ++ _) =>
    first [ apply stops_numeral; [excludes | assumption]
          | apply (@stops_run isSpace); [excludes | assumption | stops_plain]
          | apply (@stops_run isDigit); [excludes | apply_numeral | stops_plain] ]
  | |- stops _ _ => apply stops_numeral_end; [excludes | assumption]
  end
with apply_numeral :=
  match goal with
  | H : numeral ?A |- all isDigit ?A => exact (proj2 H)
  end.

Ltac side :=
  lazymatch goal with
  | |- stops (charMatches false _) _ => apply stops_plain; stops_plain
  | |- all (charMatches false _) _ =>
    apply all_plain; first [assumption | apply_numeral]
  | |- _ <> [] => match goal with H : numeral _ |- _ => exact (proj1 H) end
  end.

(** One step of the matcher on a step of known shape. *)
Ltac char_test :=
  match goal with
  | |- context [charMatches ?ic ?cs ?u] =>
    let v := eval vm_compute in (charMatches ic cs u) in
    change (charMatches ic cs u) with v; cbv iota
  end.

Ltac run1 :=
  lazymatch goal with
  | |- m _ (Seq _ _) _ _ = _ => rewrite m_Seq
  | |- m _ Bol _ _ = _ => rewrite m_Bol
  | |- m _ Eol _ _ = _ => rewrite m_Eol
  | |- m _ (Group _ _) _ _ = _ => rewrite m_Group
  | |- m _ (Opt _) _ _ = _ => rewrite m_Opt_skip; [|side]
  | |- m _ (Star _) (mkState _ (_ ++ _) _) _ = _ =>
    apply star_run; [side | side | cbv beta; cbn [endIndex rest captures]]
  | |- m _ (Star _) (mkState _ (_ :: _) _) _ = _ =>
    apply (@star_run _ _ []); [constructor | side | cbv beta; cbn [endIndex rest captures List.length]]
  | |- m _ (Star _) _ _ = _ =>
    apply star_all; [side | cbv beta; cbn [endIndex rest captures]]
  | |- m _ (Plus _) (mkState _ (_ ++ _) _) _ = _ =>
    apply plus_run; [side | side | side | cbv beta; cbn [endIndex rest captures]]
  | |- m _ (Plus _) _ _ = _ =>
    apply plus_all; [side | side | cbv beta; cbn [endIndex rest captures]]
  | |- m _ (Char _) (mkState _ (_ :: _) _) _ = _ =>
    rewrite m_Char_cons; char_test; cbv beta; cbn [endIndex rest captures]
  | |- m _ ?r _ _ = _ =>
    let r' := eval red in r in progress change r with r'
  end.

Ltac run :=
  unfold ch, digit, space, plusMinus; repeat run1; rewrite ?firstn_run.

Lemma firstn_whole (A : jsstring) (i : nat) :
  firstn (i + List.length A - i) A = A.
Proof.
  replace (i + List.length A - i)%nat with (List.length A) by lia.
  apply firstn_all.
Qed.

Lemma firstn_one (u : unit16) (R : jsstring) (i : nat) :
  firstn (i + 1 - i) (u :: R) = [u].
Proof. replace (i + 1 - i)%nat with 1%nat by lia. reflexivity. Qed.

Ltac captured := rewrite ?firstn_run, ?firstn_whole, ?firstn_one.

(** ** The sign-error shape: numeral = numeral + numeral *)

Section SumShape.

Variables a b c ws1 ws2 ws3 ws4 : jsstring.
Hypothesis Ha : numeral a.
Hypothesis Hb : numeral b.
Hypothesis Hc : numeral c.
Hypothesis H1 : blank ws1.
Hypothesis H2 : blank ws2.
Hypothesis H3 : blank ws3.
Hypothesis H4 : blank ws4.

Let step : jsstring := sumStep a ws1 ws2 b ws3 ws4 c.

Lemma sumStep_trim : trim step = step.
Proof.
  apply trim_stops.
  - apply stops_numeral; [exact digit_not_space|exact Ha].
  - unfold step, sumStep. rewrite !app_assoc. now apply stops_rev_numeral.
Qed.

Lemma sumStep_test : test reSignError step = true.
Proof.
  assert (E : exists y, matchAt reSignError 0 step = Some y).
  { unfold matchAt, reSignError, re, pattern, ignoreCase, step, sumStep.
    change (utf16 "=") with [61%N]. change (utf16 "+") with [43%N].
    cbn [seq app]. eexists. run. reflexivity. }
  destruct E as [y E]. exact (test_hit _ _ E).
Qed.

Lemma sumStep_groups :
  exists mt, exec reSignErrorGroups step = Some mt /\ group 3 mt = Some c.
Proof.
  assert (E : exists y, matchAt reSignErrorGroups 0 step = Some y
                        /\ capture 3 (captures y) = Some c).
  { unfold matchAt, reSignErrorGroups, re, pattern, ignoreCase, step, sumStep.
    change (utf16 "=") with [61%N]. change (utf16 "+") with [43%N].
    cbn [seq app]. eexists. split.
    - run. captured. reflexivity.
    - reflexivity. }
  destruct E as (y & E & Hy). eexists. split.
  - unfold exec. apply execFrom_hit, E.
  - exact Hy.
Qed.

(** C10. Every step of the shape numeral = numeral + numeral is flagged as
    a sign error by the heuristic validator, whatever the numbers are:
    the detector answers before any arithmetic is recomputed and before
    any acceptance rule is tried. *)
Theorem sign_error_flags_every_sum (u : Random) :
  fallbackValidation u (sumStep a ws1 ws2 b ws3 ws4 c)
  = mkStepResult false
      (utf16 "🤔 Check signs: when moving " ++ c
         ++ utf16 ", it should become -" ++ c)
      (Str (utf16 "When moving a positive term across the equals sign, it becomes negative."))
      (Fin (85 # 100)).
Proof.
  fold step. unfold fallbackValidation. cbv zeta.
  rewrite sumStep_trim.
  unfold checkForCommonMistakes. cbv zeta.
  rewrite sumStep_trim, sumStep_test.
  destruct sumStep_groups as (mt & -> & ->). reflexivity.
Qed.

End SumShape.

(** The arithmetically true statement [14 = 11 + 3] is such a step. *)
Lemma sign_error_flags_true_sum :
  (digits_value (utf16 "14") = digits_value (utf16 "11") + digits_value (utf16 "3"))%N /\
  fallbackValidation (mkRandom 0 0) (utf16 "14 = 11 + 3")
  = mkStepResult false
      (utf16 "🤔 Check signs: when moving 3, it should become -3")
      (Str (utf16 "When moving a positive term across the equals sign, it becomes negative."))
      (Fin (85 # 100)).
Proof.
  split; [reflexivity|].
  apply (@sign_error_flags_every_sum (utf16 "14") (utf16 "11") (utf16 "3")
           (utf16 " ") (utf16 " ") (utf16 " ") (utf16 " "));
    try (split; [discriminate|]); repeat constructor.
Defined.

(** ** The calculation shape: numeral sign numeral = numeral *)

Lemma takeDigits_all s : all isDigit s -> takeDigits s = s.
Proof.
  induction 1 as [|u s Hu _ IH]; simpl; [reflexivity|]. now rewrite Hu, IH.
Qed.

Lemma parseInt_numeral s :
  numeral s -> parseInt s = Some (Z.of_N (digits_value s)).
Proof.
  intros [NE Hs]. unfold parseInt.
  destruct s as [|u s]; [congruence|].
  inversion Hs as [|? ? Hu Hs']; subst.
  assert (Sp : isSpace u = false) by now apply digit_not_space.
  cbn [trimStart]. rewrite Sp.
  assert (M : (u =? chr "-")%N = false).
  { apply (digit_excludes (one "-")); auto. intros v. apply one_is. reflexivity. }
  assert (P : (u =? chr "+")%N = false).
  { apply (digit_excludes (one "+")); auto. intros v. apply one_is. reflexivity. }
  rewrite M, P. rewrite (takeDigits_all Hs). reflexivity.
Qed.

Lemma all_app_inv p A1 A2 : all p (A1 ++ A2) -> all p A1 /\ all p A2.
Proof. unfold all. apply Forall_app. Qed.

Section CalculationShape.

Variables a b c ws1 ws2 ws3 ws4 : jsstring.
Variable op : unit16.
Hypothesis Ha : numeral a.
Hypothesis Hb : numeral b.
Hypothesis Hc : numeral c.
Hypothesis H1 : blank ws1.
Hypothesis H2 : blank ws2.
Hypothesis H3 : blank ws3.
Hypothesis H4 : blank ws4.
Hypothesis Hop : op = chr "+" \/ op = chr "-".

Let step : jsstring := calculationStep a ws1 op ws2 b ws3 ws4 c.

Lemma calculationStep_trim : trim step = step.
Proof.
  apply trim_stops.
  - apply stops_numeral; [exact digit_not_space|exact Ha].
  - unfold step, calculationStep. rewrite !app_assoc. now apply stops_rev_numeral.
Qed.

Lemma calculationStep_no_sign_error : test reSignError step = false.
Proof.
  unfold test, reSignError, re. cbn [seq].
  rewrite exec_Bol_miss; [reflexivity|].
  unfold matchAt, step, calculationStep. cbn [pattern ignoreCase].
  change (utf16 "=") with [61%N]. cbn [app].
  unfold ch, digit, space.
  rewrite m_Seq, m_Bol, m_Seq.
  apply star_none; [side| |].
  - apply stops_plain, (@stops_run isSpace); [excludes|assumption|].
    destruct Hop; subst op; reflexivity.
  - intros A1 A2 E. rewrite m_Seq.
    assert (HA2 : all isDigit A2).
    { destruct Ha as [_ Ha']. rewrite E in Ha'. now apply all_app_inv in Ha'. }
    assert (Sop : forall q : charset, q (chr "+") = false -> q (chr "-") = false ->
                  (forall u, isSpace u = true -> q u = false) ->
                  (forall u, isDigit u = true -> q u = false) ->
                  forall T, stops q (A2 ++ ws1 ++ op :: T)).
    { intros q Q1 Q2 Q3 Q4 T. apply (@stops_run isDigit); auto.
      apply (@stops_run isSpace); auto. destruct Hop; subst op; assumption. }
    rewrite m_Opt_skip.
    2:{ apply stops_plain, Sop; try reflexivity; excludes. }
    rewrite m_Seq.
    destruct A2 as [|d A2].
    + cbn [app]. apply star_none; [apply all_plain; assumption| |].
      * apply stops_plain. destruct Hop; subst op; reflexivity.
      * intros W1 W2 EW. rewrite m_Seq. apply m_Char_stops.
        apply stops_plain, (@stops_run isSpace); [excludes| |].
        -- unfold blank in H1. rewrite EW in H1. now apply all_app_inv in H1.
        -- destruct Hop; subst op; reflexivity.
    + inversion HA2 as [|? ? Hd HA2']; subst.
      change ((d :: A2) ++ ws1 ++ op :: ws2 ++ b ++ ws3 ++ 61%N :: ws4 ++ c)
        with ([] ++ (d :: A2) ++ ws1 ++ op :: ws2 ++ b ++ ws3 ++ 61%N :: ws4 ++ c).
      apply star_none; [constructor| |].
      * apply stops_plain. cbn. now apply digit_not_space.
      * intros W1 W2 EW. destruct W1; [|discriminate]. destruct W2; [|discriminate].
        rewrite m_Seq. apply m_Char_stops. apply stops_plain. cbn.
        apply (digit_excludes (one "=")); auto. intros v. apply one_is. reflexivity.
Qed.

Lemma calculationStep_groups :
  exists mt, exec reArithmetic step = Some mt /\
             group 1 mt = Some a /\ group 2 mt = Some [op] /\
             group 3 mt = Some b /\ group 4 mt = Some c.
Proof.
  assert (E : exists y, matchAt reArithmetic 0 step = Some y
                        /\ captures y = [(4, c); (3, b); (2, [op]); (1, a)]%nat).
  { unfold matchAt, reArithmetic, re, pattern, ignoreCase, step, calculationStep.
    change (utf16 "=") with [61%N].
    cbn [seq app].
    destruct Hop; subst op; (eexists; split; [run; captured; reflexivity|reflexivity]). }
  destruct E as (y & E & Hy). eexists. split.
  - unfold exec. apply execFrom_hit, E.
  - unfold group. cbn [groups]. rewrite Hy. repeat split.
Qed.

End CalculationShape.

(** C4 (amended). A step of the shape numeral sign numeral = numeral, the
    sign being plus or minus, whose stated result is not the recomputed
    value is flagged incorrect with confidence 0.95; the feedback text
    shows the recomputed value, and the result has no explanation. The
    numerals have at most 15 digits, so that the numbers of the source are
    the exact integers. *)
Theorem arithmetic_mistake_flagged (u : Random)
  (a ws1 : jsstring) (op : unit16) (ws2 b ws3 ws4 c : jsstring) :
  numeral a -> numeral b -> numeral c ->
  blank ws1 -> blank ws2 -> blank ws3 -> blank ws4 ->
  op = chr "+" \/ op = chr "-" ->
  (List.length a <= 15)%nat -> (List.length b <= 15)%nat ->
  (List.length c <= 15)%nat ->
  calculated a op b <> Z.of_N (digits_value c) ->
  fallbackValidation u (calculationStep a ws1 op ws2 b ws3 ws4 c)
  = mkStepResult false
      (utf16 "❌ Arithmetic error: " ++ a ++ utf16 " " ++ [op] ++ utf16 " " ++ b
         ++ utf16 " = " ++ Z_to_string (calculated a op b) ++ utf16 ", not " ++ c)
      Undefined
      (Fin (95 # 100)).
Proof.
  intros Ha Hb Hc H1 H2 H3 H4 Hop _ _ _ Hne.
  unfold fallbackValidation. cbv zeta.
  rewrite calculationStep_trim by assumption.
  unfold checkForCommonMistakes. cbv zeta.
  rewrite calculationStep_trim by assumption.
  rewrite calculationStep_no_sign_error by assumption.
  destruct (@calculationStep_groups a b c ws1 ws2 ws3 ws4 op)
    as (mt & -> & -> & -> & -> & ->); try assumption.
  cbn [show]. rewrite !parseInt_numeral by assumption.
  assert (E : (if JsString.eqb [op] (utf16 "+")
               then int_add (Some (Z.of_N (digits_value a))) (Some (Z.of_N (digits_value b)))
               else int_sub (Some (Z.of_N (digits_value a))) (Some (Z.of_N (digits_value b))))
              = Some (calculated a op b)).
  { unfold calculated. destruct Hop; subst op; reflexivity. }
  rewrite E. cbn [int_strict_eq int_to_string].
  replace (Z.eqb (calculated a op b) (Z.of_N (digits_value c))) with false
    by (symmetry; now apply Z.eqb_neq).
  reflexivity.
Qed.

(** The step [5 + 3 = 9]: flagged, and the feedback says that the sum is 8. *)
Lemma arithmetic_mistake_5_3_9 :
  fallbackValidation (mkRandom 0 0) (utf16 "5 + 3 = 9")
  = mkStepResult false (utf16 "❌ Arithmetic error: 5 + 3 = 8, not 9")
      Undefined (Fin (95 # 100)).
Proof.
  apply (@arithmetic_mistake_flagged (mkRandom 0 0) (utf16 "5") (utf16 " ")
           (chr "+") (utf16 " ") (utf16 "3") (utf16 " ") (utf16 " ") (utf16 "9"));
    try (split; [discriminate|]); try (repeat constructor; fail);
    try (left; reflexivity); try (cbn; lia); discriminate.
Defined.

(** C4 as stated fails: the result for [5 + 3 = 9] carries no explanation,
    so none that states the sum. *)
Lemma arithmetic_mistake_no_explanation :
  ~ (exists text, explanation (fallbackValidation (mkRandom 0 0) (utf16 "5 + 3 = 9"))
                  = Str text /\ includes text (utf16 "8") = true).
Proof.
  intros (text & E & _). vm_compute in E. discriminate.
Qed.

(** C5. The mistake detectors answer first: whenever one of them returns a
    verdict for the trimmed step, that verdict is the result of the
    heuristic validator. The step [2x = 11 + 3] matches the move-term
    pattern of the encouraging rules, and it is flagged as a sign error,
    with the explanation of the sign flip. *)
Theorem mistake_detectors_first (u : Random) :
  (forall latex v,
     checkForCommonMistakes (trim latex) = Some v ->
     fallbackValidation u latex = v) /\
  test reMoveTerm (trim (utf16 "2x = 11 + 3")) = true /\
  fallbackValidation u (utf16 "2x = 11 + 3")
  = mkStepResult false
      (utf16 "🤔 Check signs: when moving 3, it should become -3")
      (Str (utf16 "When moving a positive term across the equals sign, it becomes negative."))
      (Fin (85 # 100)).
Proof.
  assert (G : forall latex v,
             checkForCommonMistakes (trim latex) = Some v ->
             fallbackValidation u latex = v).
  { intros latex v H. unfold fallbackValidation. cbv zeta. now rewrite H. }
  split; [exact G|]. split; [vm_compute; reflexivity|].
  apply G. vm_compute. reflexivity.
Qed.

Lemma mistake_detectors_first_witness :
  checkForCommonMistakes (trim (utf16 "5 - 3 = 1"))
  = Some (mkStepResult false (utf16 "❌ Arithmetic error: 5 - 3 = 2, not 1")
            Undefined (Fin (95 # 100))) /\
  fallbackValidation (mkRandom 0 0) (utf16 "5 - 3 = 1")
  = mkStepResult false (utf16 "❌ Arithmetic error: 5 - 3 = 2, not 1")
      Undefined (Fin (95 # 100)).
Proof.
  split; [vm_compute; reflexivity|].
  apply (proj1 (mistake_detectors_first (mkRandom 0 0))).
  vm_compute. reflexivity.
Defined.

(** ** Numbers *)

Lemma num_or_else_defined a q : num_or_else a (Fin q) <> NaN.
Proof.
  unfold num_or_else, num_falsy.
  destruct a; try discriminate. destruct (Qeq_bool _ _); discriminate.
Qed.

(** Clamping brings every number but NaN into the interval. *)
Lemma clamp_within hi n : 0 <= hi -> n <> NaN -> within 0 hi (clamp hi n).
Proof.
  intros Hhi Hn. unfold clamp.
  assert (B : Qle_bool 0 hi = true) by now apply Qle_bool_iff.
  destruct n as [| | |q]; [congruence| | |].
  - cbn [Math_min Math_max]. rewrite B. cbn. split; [exact Hhi|apply Qle_refl].
  - cbn. split; [apply Qle_refl|exact Hhi].
  - cbn [Math_min]. destruct (Qle_bool hi q) eqn:E; cbn [Math_max].
    + rewrite B. cbn. split; [exact Hhi|apply Qle_refl].
    + assert (L : q < hi).
      { apply Qnot_le_lt. intros L. apply Qle_bool_iff in L. congruence. }
      destruct (Qle_bool 0 q) eqn:E0; cbn; split;
        auto using Qlt_le_weak, Qle_refl.
      now apply Qle_bool_iff.
Qed.

(** ** The orchestrator: single steps *)

Ltac binds H :=
  unfold bind in H;
  repeat match type of H with
         | match ?e with _ => _ end = Some _ =>
           let E := fresh "E" in destruct e eqn:E; [|discriminate H]
         end.

Section Validation.

Variable JSON_parse : jsstring -> option jsval.
Variable StringToNumber : jsstring -> jsnum.
Variable NumberToString : jsnum -> jsstring.
Variable toLowerCase : jsstring -> jsstring.
Variable groq_create : jsstring -> jsstring -> Completion.

Local Abbreviation cleanFeedback' := (cleanFeedback toLowerCase).
Local Abbreviation extractJson' := (extractJson JSON_parse).
Local Abbreviation keywordHit' := (keywordHit toLowerCase).
Local Abbreviation parseValidationResponse' :=
  (parseValidationResponse JSON_parse StringToNumber NumberToString toLowerCase).
Local Abbreviation validateMathStep' :=
  (validateMathStep JSON_parse StringToNumber NumberToString toLowerCase groq_create).

Lemma parseValidationResponse_confidence (response : jsstring) :
  within 0 1 (confidence (parseValidationResponse' response)).
Proof.
  unfold parseValidationResponse.
  destruct (parseValidationResponse_try _ _ _ _ _) as [r|] eqn:E.
  - unfold parseValidationResponse_try in E. binds E.
    inversion E; subst. cbn [confidence].
    apply clamp_within; [discriminate|apply num_or_else_defined].
  - cbv zeta. cbn [confidence]. split_cases; now apply within_const.
Qed.

(** C1. Whatever the step, the context and the outcome of the Completion
    capability (a reply with or without content, well-formed or not, or a
    failure), [validateMathStep] resolves, and the confidence of its result
    lies between 0 and 1. *)
Theorem validateMathStep_resolves (u : Random) (latex : jsstring)
  (context : option jsstring) :
  exists r, validateMathStep' u latex context = Resolved r /\
            within 0 1 (confidence r).
Proof.
  unfold validateMathStep, async, try_catch, bind. cbv zeta.
  destruct (contentOf _) as [response|].
  - eexists. split; [reflexivity|]. apply parseValidationResponse_confidence.
  - destruct (negb _); eexists; (split; [reflexivity|]).
    + apply fallbackValidation_confidence.
    + now apply within_const.
Qed.

(** C9. When no JSON object is extracted from the response ([extractJson]
    finds no braces or [JSON.parse] throws), the result is decided by the
    keyword scan of the cleaned text: correct with confidence 0.8 when its
    lower-case form holds [correct], [valid] or [true], incorrect with
    confidence 0.3 otherwise. A cleaned text that holds [incorrect] holds
    [correct], and is classified correct. *)
Theorem keyword_scan_fallback (response : jsstring) :
  extractJson' response = None ->
  let cleaned := cleanFeedback' response in
  let r := parseValidationResponse' response in
  isCorrect r = keywordHit' cleaned /\
  confidence r = (if keywordHit' cleaned then Fin (8 # 10) else Fin (3 # 10)) /\
  feedback r = substring0 200 cleaned
                 ++ (if 200 <? List.length cleaned then utf16 "..." else []) /\
  (includes (toLowerCase cleaned) (utf16 "incorrect") = true ->
   isCorrect r = true /\ confidence r = Fin (8 # 10)).
Proof.
  intros H. cbv zeta. unfold parseValidationResponse, parseValidationResponse_try.
  rewrite H. cbn [bind isCorrect confidence feedback].
  fold (keywordHit' (cleanFeedback' response)).
  repeat split.
  - unfold keywordHit.
    now rewrite (@includes_inner _ (utf16 "in") (utf16 "correct") [] H0).
  - unfold keywordHit.
    now rewrite (@includes_inner _ (utf16 "in") (utf16 "correct") [] H0).
Qed.

End Validation.

Lemma keyword_scan_fallback_witness :
  extractJson Reference.JSON_parse (utf16 "This step is incorrect.") = None /\
  isCorrect (parseValidationResponse Reference.JSON_parse Reference.StringToNumber
               Reference.NumberToString Reference.toLowerCase
               (utf16 "This step is incorrect.")) = true.
Proof.
  split; [vm_compute; reflexivity|].
  apply (@keyword_scan_fallback Reference.JSON_parse Reference.StringToNumber
           Reference.NumberToString Reference.toLowerCase
           (utf16 "This step is incorrect.")).
  - vm_compute. reflexivity.
  - vm_compute. reflexivity.
Defined.

(** ** Captures *)

(** A pattern without groups hands the captures it received on to its
    continuation. *)
Lemma repeat_groupFree (body : MatchState -> Continuation -> option MatchState) :
  (forall x c z, body x c = Some z ->
     exists y, captures y = captures x /\ c y = Some z) ->
  forall fuel x c z, repeatMatcher body c fuel x = Some z ->
     exists y, captures y = captures x /\ c y = Some z.
Proof.
  intros Hbody. induction fuel as [|fuel IH]; intros x c z H; cbn [repeatMatcher] in H.
  - now exists x.
  - destruct (body x _) as [z'|] eqn:E.
    + inversion H; subst z'. apply Hbody in E as (y & Hy & E).
      destruct (Nat.eqb _ _); [discriminate|].
      apply IH in E as (y' & Hy' & E). exists y'. split; congruence.
    + now exists x.
Qed.

Lemma m_groupFree ic r : groupFree r = true ->
  forall x c z, m ic r x c = Some z ->
    exists y, captures y = captures x /\ c y = Some z.
Proof.
  induction r as [|cs|r1 IH1 r2 IH2|r1 IH1 r2 IH2|r1 IH1|n r1 IH1|n| |];
    cbn [groupFree]; intros G x c z H; try discriminate.
  - now exists x.
  - cbn [m] in H. destruct (rest x); [discriminate|].
    destruct (charMatches _ _ _); [|discriminate]. now exists (advance 1 x).
  - apply andb_prop in G as [G1 G2]. rewrite m_Seq in H.
    apply (IH1 G1) in H as (y1 & Hy1 & H).
    apply (IH2 G2) in H as (y2 & Hy2 & H). exists y2. split; congruence.
  - apply andb_prop in G as [G1 G2]. rewrite m_Alt in H.
    destruct (m ic r1 x c) eqn:E.
    + inversion H; subst. now apply (IH1 G1) in E.
    + now apply (IH2 G2) in H.
  - cbn [m] in H. eapply repeat_groupFree; [|exact H]. exact (IH1 G).
  - cbn [m] in H. destruct (capture n (captures x)); [|now exists x].
    destruct (unitsMatch _ _ _); [|discriminate].
    eexists. split; [|exact H]. reflexivity.
  - cbn [m] in H. destruct (Nat.eqb _ _); [|discriminate]. now exists x.
  - cbn [m] in H. destruct (rest x); [|discriminate]. now exists x.
Qed.

Lemma execFrom_inv R s : forall i mt,
  execFrom R i s = Some mt ->
  exists j s' y, matchAt R j s' = Some y /\ groups mt = captures y.
Proof.
  induction s as [|u s IH]; intros i mt H; cbn [execFrom] in H.
  - destruct (matchAt R i []) as [y|] eqn:E; [|discriminate].
    inversion H; subst. now exists i, [], y.
  - destruct (matchAt R i (u :: s)) as [y|] eqn:E.
    + inversion H; subst. now exists i, (u :: s), y.
    + now apply IH in H.
Qed.

Lemma digit_ignoreCase u : charMatches true isDigit u = true -> isDigit u = true.
Proof.
  unfold charMatches, upperAscii, lowerAscii, isLowerAscii, isUpperAscii, isDigit.
  destruct (N.leb_spec 97 u), (N.leb_spec u 122), (N.leb_spec 65 u),
    (N.leb_spec u 90), (N.leb_spec 48 u), (N.leb_spec u 57);
    cbn [andb orb]; try reflexivity; try lia;
    repeat match goal with
           | |- context [(?a <=? ?b)%N] => destruct (N.leb_spec a b)
           end; cbn [andb orb]; try discriminate; intros; lia.
Qed.

Lemma numeral_ignoreCase A :
  A <> [] -> all (charMatches true isDigit) A -> numeral A.
Proof.
  intros NE H. split; auto. eapply Forall_impl; [|exact H].
  intros u Hu. now apply digit_ignoreCase.
Qed.

(** The number read by the last resort of [parseSolutionEvaluation] is
    written with digits. *)
Lemma reScore_capture s sm :
  exec reScore s = Some sm ->
  match (match group 1 sm with
         | Some ((_ :: _) as g) => Some g
         | _ => group 2 sm
         end) with
  | Some g => numeral g
  | None => False
  end.
Proof.
  intros H. apply execFrom_inv in H as (j & s' & y & H & G).
  unfold group. rewrite G. clear G sm.
  unfold matchAt, reScore, re_i in H. cbn [pattern ignoreCase seq] in H.
  rewrite m_Alt in H.
  destruct (m true (Seq (Group 1 (Plus digit)) (lit "/100")) _ Some) as [z|] eqn:E.
  - inversion H; subst z. clear H.
    rewrite m_Seq, m_Group in E. unfold digit in E.
    apply plus_inv in E as (A & R & -> & NE & HA & E).
    cbv beta in E. cbn [endIndex rest captures] in E. rewrite firstn_run in E.
    apply m_groupFree in E as (y' & Hy' & E); [|reflexivity].
    inversion E; subst y'. rewrite Hy'. cbn [captures capture Nat.eqb].
    destruct A as [|u A]; [congruence|]. now apply numeral_ignoreCase.
  - rewrite m_Seq in H.
    apply m_groupFree in H as (y1 & Hy1 & H); [|reflexivity].
    rewrite m_Seq in H.
    apply m_groupFree in H as (y2 & Hy2 & H); [|reflexivity].
    destruct y2 as [i2 s2 c2]. cbn [captures] in Hy1, Hy2.
    rewrite m_Group in H. unfold digit in H.
    apply plus_inv in H as (A & R & -> & NE & HA & H).
    cbv beta in H. cbn [endIndex rest captures] in H. rewrite firstn_run in H.
    inversion H; subst y. cbn [captures]. rewrite Hy2, Hy1.
    cbn [capture Nat.eqb]. now apply numeral_ignoreCase.
Qed.

(** ** The orchestrator: whole solutions *)

Lemma generateDefaultSuggestions_nonempty n : generateDefaultSuggestions n <> [].
Proof. unfold generateDefaultSuggestions. split_cases; discriminate. Qed.

Lemma orDefault_nonempty n l : orDefault n l <> [].
Proof.
  destruct l; cbn; [apply generateDefaultSuggestions_nonempty|discriminate].
Qed.

Lemma filter_length_le {A : Type} (f : A -> bool) (l : list A) :
  (List.length (filter f l) <= List.length l)%nat.
Proof. induction l as [|x l IH]; simpl; [lia|]. destruct (f x); simpl; lia. Qed.

Lemma Math_round_within (lo hi : Z) q :
  inject_Z lo <= q -> q <= inject_Z hi ->
  within (inject_Z lo) (inject_Z hi) (Math_round (Fin q)).
Proof.
  intros L U. cbn [Math_round within]. split; rewrite <- Zle_Qle.
  - assert (E : Qfloor (inject_Z lo) = lo) by apply Qfloor_Z.
    rewrite <- E at 1. apply Qfloor_resp_le.
    apply Qle_trans with q; auto.
    rewrite <- (Qplus_0_r q) at 1. apply Qplus_le_r. discriminate.
  - apply Z.lt_succ_r. rewrite Zlt_Qlt.
    apply Qle_lt_trans with (q + (1 # 2)); [apply Qfloor_le|].
    apply Qle_lt_trans with (inject_Z hi + (1 # 2)); [now apply Qplus_le_l|].
    unfold Z.succ. rewrite inject_Z_plus. apply Qplus_lt_r. reflexivity.
Qed.

Section Evaluation.

Variable JSON_parse : jsstring -> option jsval.
Variable StringToNumber : jsstring -> jsnum.
Variable NumberToString : jsnum -> jsstring.
Variable toLowerCase : jsstring -> jsstring.
Variable fl : Q -> Q.
Variable groq_create : jsstring -> jsstring -> Completion.

(** A run of digits denotes a number. *)
Hypothesis StringToNumber_numeral :
  forall s, numeral s -> StringToNumber s <> NaN.

(** Rounding to binary64 is monotone, and exact on [n / 2^k] when [n] has
    at most 53 bits. *)
Hypothesis fl_monotone : forall x y, x <= y -> fl x <= fl y.
Hypothesis fl_exact : forall (n : Z) (k : nat),
  (Z.abs n <= 2 ^ 53)%Z -> (k <= 1000)%nat ->
  fl (inject_Z n / inject_Z (2 ^ Z.of_nat k))
  == inject_Z n / inject_Z (2 ^ Z.of_nat k).

Local Abbreviation accuracyOf' := (accuracyOf fl).
Local Abbreviation fallbackSolutionEvaluation' := (fallbackSolutionEvaluation fl).
Local Abbreviation parseSolutionEvaluation' :=
  (parseSolutionEvaluation JSON_parse StringToNumber NumberToString toLowerCase).
Local Abbreviation evaluateCompleteSolution' :=
  (evaluateCompleteSolution JSON_parse StringToNumber NumberToString toLowerCase
     fl groq_create).

Lemma fl_compat x y : x == y -> fl x == fl y.
Proof.
  intros E. apply Qle_antisym; apply fl_monotone; rewrite E; apply Qle_refl.
Qed.

Lemma fl_dyadic (n : Z) (k : nat) x :
  (Z.abs n <= 2 ^ 53)%Z -> (k <= 1000)%nat ->
  x == inject_Z n / inject_Z (2 ^ Z.of_nat k) -> fl x == x.
Proof. intros Hn Hk E. rewrite (fl_compat E), E. now apply fl_exact. Qed.

Lemma fl_int (n : Z) : (Z.abs n <= 2 ^ 53)%Z -> fl (inject_Z n) == inject_Z n.
Proof.
  intros Hn. apply (@fl_dyadic n 0); auto; [lia|].
  cbn. unfold Qdiv. change (/ inject_Z 1) with 1. now rewrite Qmult_1_r.
Qed.

Lemma accuracy_range (total correct : nat) :
  (correct <= total)%nat ->
  0 <= accuracyOf' total correct /\ accuracyOf' total correct <= 100.
Proof.
  intros Hle. unfold accuracyOf.
  destruct (0 <? total) eqn:E; [|split; discriminate].
  apply Nat.ltb_lt in E.
  set (r := inject_Z (Z.of_nat correct) / inject_Z (Z.of_nat total)).
  assert (T : 0 < inject_Z (Z.of_nat total)).
  { change 0 with (inject_Z 0). rewrite <- Zlt_Qlt. lia. }
  assert (R0 : 0 <= r).
  { apply Qle_shift_div_l; auto. rewrite Qmult_0_l.
    change 0 with (inject_Z 0). rewrite <- Zle_Qle. lia. }
  assert (R1 : r <= 1).
  { apply Qle_shift_div_r; auto. rewrite Qmult_1_l. rewrite <- Zle_Qle. lia. }
  assert (Z0 : 0 <= fl 0).
  { assert (E0 : fl (inject_Z 0) == inject_Z 0) by (apply fl_int; cbn; lia).
    change (inject_Z 0) with 0 in E0. rewrite E0. apply Qle_refl. }
  assert (Z1 : fl 1 <= 1).
  { assert (E1 : fl (inject_Z 1) == inject_Z 1) by (apply fl_int; cbn; lia).
    change (inject_Z 1) with 1 in E1. rewrite E1. apply Qle_refl. }
  assert (Z100 : fl 100 <= 100).
  { assert (E1 : fl (inject_Z 100) == inject_Z 100) by (apply fl_int; cbn; lia).
    change (inject_Z 100) with 100 in E1. rewrite E1. apply Qle_refl. }
  assert (F0 : 0 <= fl r) by (eapply Qle_trans; [exact Z0|now apply fl_monotone]).
  assert (F1 : fl r <= 1)
    by (apply Qle_trans with (fl 1); [now apply fl_monotone|exact Z1]).
  split.
  - eapply Qle_trans; [exact Z0|]. apply fl_monotone.
    change 0 with (0 * 100). apply Qmult_le_compat_r; auto. discriminate.
  - apply Qle_trans with (fl 100); [|exact Z100]. apply fl_monotone.
    change 100 with (1 * 100) at 2. apply Qmult_le_compat_r; auto. discriminate.
Qed.

Lemma fallback_score_perfect (acc : Q) :
  acc == 100 ->
  Math_min (Fin 100) (Fin (fl (inject_Z (Qfloor (acc + (1 # 2))) + 10)))
  = Fin 100.
Proof.
  intros E.
  assert (F : Qfloor (acc + (1 # 2)) = 100%Z).
  { assert (E' : acc + (1 # 2) == 201 # 2) by (rewrite E; reflexivity).
    rewrite (Qfloor_comp _ _ E'). reflexivity. }
  rewrite F. cbn [Math_min].
  assert (G : fl (inject_Z 100 + 10) == 110).
  { apply (@fl_dyadic 110 0); try (cbn; lia); reflexivity. }
  replace (Qle_bool 100 (fl (inject_Z 100 + 10))) with true; [reflexivity|].
  symmetry. apply Qle_bool_iff. rewrite G. discriminate.
Qed.

Lemma fallbackSolutionEvaluation_invariants question steps :
  within 0 100 (score (fallbackSolutionEvaluation' question steps)) /\
  suggestions (fallbackSolutionEvaluation' question steps) <> [].
Proof.
  unfold fallbackSolutionEvaluation. cbv zeta.
  destruct (accuracy_range (filter_length_le stepIsCorrect steps)) as [A0 A1].
  set (acc := accuracyOf' _ _) in *.
  split.
  - destruct (Qeq_bool acc 100) eqn:E.
    + apply Qeq_bool_iff in E. cbn [Math_round].
      rewrite (fallback_score_perfect E).
      split_cases; cbn [score within]; split; discriminate.
    + assert (W : within 0 100 (Math_round (Fin acc)))
        by (apply (@Math_round_within 0 100); auto).
      split_cases; exact W.
  - split_cases; cbn [suggestions]; discriminate.
Qed.

Lemma parseSolutionEvaluation_invariants response :
  within 0 100 (score (parseSolutionEvaluation' response)) /\
  suggestions (parseSolutionEvaluation' response) <> [].
Proof.
  unfold parseSolutionEvaluation.
  destruct (parseSolutionEvaluation_try _ _ _ _ _) as [r|] eqn:E.
  - unfold parseSolutionEvaluation_try in E.
    destruct (exec reMalformed _) as [mm|].
    + binds E. inversion E; subst. cbn [score suggestions]. split.
      * apply clamp_within; [discriminate|apply num_or_else_defined].
      * apply orDefault_nonempty.
    + destruct (exec reJsonObject _) as [jm|]; [|discriminate].
      binds E. inversion E; subst. cbn [score suggestions]. split.
      * apply clamp_within; [discriminate|apply num_or_else_defined].
      * match goal with
        | H : match ?l with [] => _ | _ :: _ => _ end = Some _ |- _ =>
          destruct l; [binds H; inversion H; apply generateDefaultSuggestions_nonempty
                      |inversion H; discriminate]
        end.
  - cbv zeta. cbn [score suggestions]. split.
    + apply clamp_within; [discriminate|].
      destruct (exec reScore response) as [sm|] eqn:S; [|discriminate].
      apply reScore_capture in S.
      destruct (match group 1 sm with
                | Some ((_ :: _) as g) => Some g
                | _ => group 2 sm
                end); [|contradiction].
      now apply StringToNumber_numeral.
    + apply generateDefaultSuggestions_nonempty.
Qed.

(** C2. Whatever the problem, the steps and the outcome of the Completion
    capability, [evaluateCompleteSolution] resolves with a score between 0
    and 100 and with at least one suggestion: on the strict parse, on the
    salvage of a malformed reply, on the last resort of the score pattern
    and on the fallback after a failure. *)
Theorem evaluateCompleteSolution_invariants (question : jsstring)
  (steps : list SolutionStep) :
  exists r, evaluateCompleteSolution' question steps = Resolved r /\
            within 0 100 (score r) /\ suggestions r <> [].
Proof.
  unfold evaluateCompleteSolution, async, try_catch, bind. cbv zeta.
  destruct (contentOf _) as [response|]; eexists; (split; [reflexivity|]).
  - apply parseSolutionEvaluation_invariants.
  - apply fallbackSolutionEvaluation_invariants.
Qed.

Lemma fallbackSolutionEvaluation_score question steps :
  score (fallbackSolutionEvaluation' question steps)
  = let acc := accuracyOf' (List.length steps)
                 (List.length (filter stepIsCorrect steps)) in
    if Qeq_bool acc 100
    then Math_min (Fin 100) (Fin (fl (inject_Z (Qfloor (acc + (1 # 2))) + 10)))
    else Math_round (Fin acc).
Proof.
  unfold fallbackSolutionEvaluation. cbv zeta. cbn [Math_round].
  split_cases; reflexivity.
Qed.

(** C3. When the Completion capability fails, the score is the rounded
    accuracy: [Math.round] of the quotient of the correct steps by all
    steps, times 100. The bonus of 10 is added only when the accuracy is
    exactly 100, and capped at 100 it leaves the score at 100. With two
    correct steps out of three the score is 67, between 60 and 70. *)
Theorem fallback_score (question : jsstring) (steps : list SolutionStep) :
  groq_create evaluationSystemPrompt (evaluationPrompt NumberToString question steps)
  = Failure ->
  let total := List.length steps in
  let correct := List.length (filter stepIsCorrect steps) in
  exists r,
    evaluateCompleteSolution' question steps = Resolved r /\
    score r = Math_round (Fin (accuracyOf' total correct)) /\
    (Qeq_bool (accuracyOf' total correct) 100 = true -> score r = Fin 100) /\
    (total = 3%nat -> correct = 2%nat ->
     score r = Fin 67 /\ within 60 70 (score r)).
Proof.
  intros F. cbv zeta.
  unfold evaluateCompleteSolution, async, try_catch, bind. cbv zeta.
  rewrite F. cbn [contentOf]. eexists. split; [reflexivity|].
  rewrite fallbackSolutionEvaluation_score.
  set (acc := accuracyOf' _ _).
  assert (S : (if Qeq_bool acc 100
               then Math_min (Fin 100)
                      (Fin (fl (inject_Z (Qfloor (acc + (1 # 2))) + 10)))
               else Math_round (Fin acc)) = Math_round (Fin acc)).
  { destruct (Qeq_bool acc 100) eqn:E; [|reflexivity].
    apply Qeq_bool_iff in E. rewrite (fallback_score_perfect E).
    cbn [Math_round]. assert (E' : acc + (1 # 2) == 201 # 2) by (rewrite E; reflexivity).
    rewrite (Qfloor_comp _ _ E'). reflexivity. }
  cbn [Math_round] in *.
  rewrite S. split; [reflexivity|]. split.
  - intros E. apply Qeq_bool_iff in E.
    assert (E' : acc + (1 # 2) == 201 # 2) by (rewrite E; reflexivity).
    rewrite (Qfloor_comp _ _ E'). reflexivity.
  - intros T C. subst acc. rewrite T, C. unfold accuracyOf. cbn [Nat.ltb Nat.leb].
    set (r := inject_Z (Z.of_nat 2) / inject_Z (Z.of_nat 3)).
    assert (L : (5461 # 8192) <= fl r).
    { assert (D : fl (5461 # 8192) == 5461 # 8192)
        by (apply (@fl_dyadic 5461 13); try (cbn; lia); reflexivity).
      rewrite <- D. apply fl_monotone. discriminate. }
    assert (U : fl r <= (5462 # 8192)).
    { assert (D : fl (5462 # 8192) == 5462 # 8192)
        by (apply (@fl_dyadic 5462 13); try (cbn; lia); reflexivity).
      rewrite <- D. apply fl_monotone. discriminate. }
    assert (L' : (546100 # 8192) <= fl (fl r * 100)).
    { assert (D : fl (546100 # 8192) == 546100 # 8192)
        by (apply (@fl_dyadic 546100 13); try (cbn; lia); reflexivity).
      rewrite <- D. apply fl_monotone.
      change (546100 # 8192) with ((5461 # 8192) * 100).
      apply Qmult_le_compat_r; auto. discriminate. }
    assert (U' : fl (fl r * 100) <= (546200 # 8192)).
    { assert (D : fl (546200 # 8192) == 546200 # 8192)
        by (apply (@fl_dyadic 546200 13); try (cbn; lia); reflexivity).
      rewrite <- D. apply fl_monotone.
      change (546200 # 8192) with ((5462 # 8192) * 100).
      apply Qmult_le_compat_r; auto. discriminate. }
    assert (Fl : Qfloor (fl (fl r * 100) + (1 # 2)) = 67%Z).
    { apply Z.le_antisymm.
      - change 67%Z with (Qfloor ((546200 # 8192) + (1 # 2))).
        apply Qfloor_resp_le. now apply Qplus_le_l.
      - change 67%Z with (Qfloor ((546100 # 8192) + (1 # 2))).
        apply Qfloor_resp_le. now apply Qplus_le_l. }
    rewrite Fl. split; [reflexivity|]. split; discriminate.
Qed.

End Evaluation.

(** ** The reference built-ins meet the assumptions *)

Lemma Reference_StringToNumber_numeral s :
  numeral s -> Reference.StringToNumber s <> NaN.
Proof.
  intros Hs. pose proof Hs as [NE Hall].
  unfold Reference.StringToNumber.
  rewrite trim_stops.
  2:{ now apply stops_numeral_end; [exact digit_not_space|]. }
  2:{ apply (@stops_rev_numeral [] s Hs). }
  destruct s as [|u t]; [congruence|].
  inversion Hall as [|? ? Hu Ht]; subst.
  assert (M : (u =? chr "-")%N = false).
  { apply (digit_excludes (one "-")); auto. intros v. apply one_is. reflexivity. }
  assert (P : (u =? chr "+")%N = false).
  { apply (digit_excludes (one "+")); auto. intros v. apply one_is. reflexivity. }
  rewrite M, P.
  assert (X : forall w, isDigit w = false ->
              startsWith [chr "0"; w] (u :: t) = false).
  { intros w Hw. cbn [startsWith]. destruct t as [|v t']; [apply andb_false_r|].
    inversion Ht; subst.
    replace (w =? v)%N with false; [cbn; apply andb_false_r|].
    symmetry. apply N.eqb_neq. intros ->. congruence. }
  change (utf16 "0x") with [chr "0"; chr "x"]. change (utf16 "0X") with [chr "0"; chr "X"].
  change (utf16 "0o") with [chr "0"; chr "o"]. change (utf16 "0O") with [chr "0"; chr "O"].
  change (utf16 "0b") with [chr "0"; chr "b"]. change (utf16 "0B") with [chr "0"; chr "B"].
  rewrite !X by reflexivity. cbn [orb].
  unfold Reference.unsignedDecimal.
  replace (JsString.eqb (u :: t) (utf16 "Infinity")) with false.
  2:{ symmetry. unfold JsString.eqb. destruct (list_eq_dec _ _ _) as [E|]; auto.
      inversion E; subst. discriminate. }
  rewrite (takeDigits_all Hall), skipn_all. discriminate.
Qed.

Lemma Reference_fl_monotone x y : x <= y -> Reference.fl x <= Reference.fl y.
Proof. exact (fun H => H). Qed.

Lemma Reference_fl_exact (n : Z) (k : nat) :
  (Z.abs n <= 2 ^ 53)%Z -> (k <= 1000)%nat ->
  Reference.fl (inject_Z n / inject_Z (2 ^ Z.of_nat k))
  == inject_Z n / inject_Z (2 ^ Z.of_nat k).
Proof. intros _ _. apply Qeq_refl. Qed.

Lemma evaluateCompleteSolution_invariants_witness :
  exists r,
    evaluateCompleteSolution Reference.JSON_parse Reference.StringToNumber
      Reference.NumberToString Reference.toLowerCase Reference.fl
      (fun _ _ => Content (Some (utf16 "I would give 85/100 overall.")))
      (utf16 "2x + 3 = 11")
      [mkStep (Fin 1) (utf16 "2x = 8") true []; mkStep (Fin 2) (utf16 "x = 4") true []]
    = Resolved r /\
    within 0 100 (score r) /\ suggestions r <> [].
Proof.
  apply evaluateCompleteSolution_invariants.
  - exact Reference_StringToNumber_numeral.
  - exact Reference_fl_monotone.
  - exact Reference_fl_exact.
Defined.

Lemma fallback_score_witness :
  exists r,
    evaluateCompleteSolution Reference.JSON_parse Reference.StringToNumber
      Reference.NumberToString Reference.toLowerCase Reference.fl
      (fun _ _ => Failure)
      (utf16 "2x + 3 = 11")
      [mkStep (Fin 1) (utf16 "2x = 8") true [];
       mkStep (Fin 2) (utf16 "x = 5") false [];
       mkStep (Fin 3) (utf16 "x = 4") true []]
    = Resolved r /\ score r = Fin 67.
Proof.
  destruct (@fallback_score Reference.JSON_parse Reference.StringToNumber
              Reference.NumberToString Reference.toLowerCase Reference.fl
              (fun _ _ => Failure)
              Reference_fl_monotone Reference_fl_exact
              (utf16 "2x + 3 = 11")
              [mkStep (Fin 1) (utf16 "2x = 8") true [];
               mkStep (Fin 2) (utf16 "x = 5") false [];
               mkStep (Fin 3) (utf16 "x = 4") true []] eq_refl)
    as (r & E & _ & _ & H).
  exists r. split; [exact E|]. now apply H.
Defined.

(** ** Literals *)

Lemma unit_plain a u : charMatches false (Regex.unit a) u = true -> u = a.
Proof.
  rewrite charMatches_plain. unfold Regex.unit. apply N.eqb_eq.
Qed.

(** A literal matches its own units and nothing else. *)
Lemma m_units_inv l : forall i s caps c z,
  m false (seq (map (fun u => Char (Regex.unit u)) l)) (mkState i s caps) c = Some z ->
  exists T, s = l ++ T /\ c (mkState (i + List.length l) T caps) = Some z.
Proof.
  induction l as [|a l IH]; intros i s caps c z H.
  - cbn in H. exists s. now rewrite Nat.add_0_r.
  - assert (One : forall k : Continuation,
              m false (Char (Regex.unit a)) (mkState i s caps) k = Some z ->
              exists T, s = a :: T /\ k (mkState (i + 1) T caps) = Some z).
    { intros k Hk. destruct s as [|u s]; [discriminate|].
      rewrite m_Char_cons in Hk.
      destruct (charMatches false (Regex.unit a) u) eqn:E; [|discriminate].
      apply unit_plain in E. subst u. now exists s. }
    destruct l as [|b l].
    + cbn [map seq] in H. apply One in H as (T & -> & H). exists T. split; auto.
    + change (seq (map (fun u => Char (Regex.unit u)) (a :: b :: l)))
        with (Seq (Char (Regex.unit a)) (seq (map (fun u => Char (Regex.unit u)) (b :: l)))) in H.
      rewrite m_Seq in H. apply One in H as (T & -> & H).
      apply IH in H as (T' & -> & H). exists T'. split; auto.
      rewrite <- H. f_equal. f_equal. cbn [List.length]. lia.
Qed.

(** ** The code-fence markers *)

(** What a match of the fence pattern has consumed: the opening marker and
    white space, or white space and the closing marker. *)
Lemma fence_match_inv i s y :
  matchAt reFence i s = Some y ->
  exists W, blank W /\
    ((s = utf16 "```json" ++ W ++ rest y /\ endIndex y = (i + 7 + List.length W)%nat) \/
     (s = W ++ utf16 "```" ++ rest y /\ endIndex y = (i + List.length W + 3)%nat)).
Proof.
  unfold matchAt, reFence, re_g. cbn [pattern ignoreCase seq]. rewrite m_Alt.
  destruct (m false (Seq (lit "```json") (Star space)) _ Some) as [z|] eqn:E.
  - intros H; inversion H; subst z; clear H.
    rewrite m_Seq in E. unfold lit in E.
    apply m_units_inv in E as (T & -> & E).
    cbn [m rest] in E. apply repeat_inv in E as (W & R & E1 & E2 & E3).
    cbn [rest endIndex captures] in *. inversion E3; subst y. cbn [rest endIndex].
    exists W. split.
    + now apply all_plain_inv in E2.
    + left. subst T. split; reflexivity.
  - clear E. intros H. rewrite m_Seq in H. cbn [m rest] in H.
    apply repeat_inv in H as (W & R & E1 & E2 & E3).
    cbn [rest endIndex captures] in *. unfold lit in E3.
    apply m_units_inv in E3 as (T & -> & E3). inversion E3; subst y.
    cbn [rest endIndex]. exists W. split.
    + now apply all_plain_inv in E2.
    + right. subst s. split; reflexivity.
Qed.

(** ** Lists of units *)

Lemma lacks_app u A B : lacks u (A ++ B) <-> lacks u A /\ lacks u B.
Proof.
  unfold lacks. rewrite in_app_iff. tauto.
Qed.

Lemma lacks_cons u a A : lacks u (a :: A) <-> a <> u /\ lacks u A.
Proof. unfold lacks. cbn. tauto. Qed.

(** A part without [u] in front of the first [u] is a prefix of what
    precedes that [u]. *)
Lemma prefix_before u : forall A X Z R,
  X ++ u :: Z = A ++ R -> lacks u A -> lacks u X ->
  exists X2, X = A ++ X2 /\ R = X2 ++ u :: Z.
Proof.
  induction A as [|a A IH]; intros X Z R E HA HX.
  - exists X. now split.
  - apply lacks_cons in HA as [Na HA]. destruct X as [|x X].
    + cbn in E. inversion E. congruence.
    + cbn in E. inversion E; subst x. apply lacks_cons in HX as [_ HX].
      destruct (IH X Z R H1 HA HX) as (X2 & -> & ->). now exists X2.
Qed.

(** White space and then a backtick cannot fit before a closing brace that
    follows units without backtick. *)
Lemma no_marker_before W : forall M T R,
  blank W -> lacks backtick M ->
  W ++ backtick :: R = M ++ chr "}" :: T -> False.
Proof.
  induction W as [|w W IH]; intros M T R HW HM E.
  - destruct M as [|x M]; cbn in E; inversion E.
    subst x. apply lacks_cons in HM as [N _]. now apply N.
  - inversion HW as [|? ? Hw HW']; subst. destruct M as [|x M]; cbn in E; inversion E.
    + subst w. discriminate.
    + subst x. apply lacks_cons in HM as [_ HM]. eapply IH; eauto.
Qed.

(** ** Stripping the fences *)

Lemma fence_consumed i s y :
  matchAt reFence i s = Some y ->
  exists A, s = A ++ rest y /\ endIndex y = (i + List.length A)%nat /\ A <> [] /\
            lacks (chr "{") A /\ lacks (chr "}") A.
Proof.
  intros H. apply fence_match_inv in H as (W & HW & [[E1 E2]|[E1 E2]]).
  - exists (utf16 "```json" ++ W). repeat split.
    + now rewrite <- app_assoc.
    + rewrite E2, length_app. cbn. lia.
    + discriminate.
    + apply lacks_app. split; [cbv; intuition discriminate|].
      intros I. eapply Forall_forall in I; [|exact HW]. discriminate.
    + apply lacks_app. split; [cbv; intuition discriminate|].
      intros I. eapply Forall_forall in I; [|exact HW]. discriminate.
  - exists (W ++ utf16 "```"). repeat split.
    + now rewrite <- app_assoc.
    + rewrite E2, length_app. cbn. lia.
    + destruct W; discriminate.
    + apply lacks_app. split; [|cbv; intuition discriminate].
      intros I. eapply Forall_forall in I; [|exact HW]. discriminate.
    + apply lacks_app. split; [|cbv; intuition discriminate].
      intros I. eapply Forall_forall in I; [|exact HW]. discriminate.
Qed.

Lemma fence_no_match i M T :
  lacks backtick M -> matchAt reFence i (M ++ chr "}" :: T) = None.
Proof.
  intros HM. destruct (matchAt reFence i _) as [y|] eqn:E; [|reflexivity].
  exfalso. apply fence_match_inv in E as (W & HW & [[E1 E2]|[E1 E2]]).
  - destruct M as [|x M]; cbn in E1; inversion E1.
    apply lacks_cons in HM as [N _]. apply N. assumption.
  - symmetry in E1. now apply (@no_marker_before W M T _ HW HM) in E1.
Qed.

(** Before the first opening brace only units without it remain. *)
Lemma strip_prefix fuel : forall X i Z,
  lacks (chr "{") X -> (List.length (X ++ chr "{" :: Z) < fuel)%nat ->
  exists P fuel' i',
    replaceLoop fuel reFence [] i (X ++ chr "{" :: Z)
    = P ++ chr "{" :: replaceLoop fuel' reFence [] i' Z /\
    (List.length Z < fuel')%nat /\ lacks (chr "{") P.
Proof.
  induction fuel as [|fuel IH]; intros X i Z HX Hf; [lia|].
  cbn [replaceLoop].
  destruct (matchAt reFence i _) as [y|] eqn:E.
  - apply fence_consumed in E as (A & E1 & E2 & NE & HA & _).
    destruct (prefix_before _ _ E1 HA HX) as (X2 & -> & Ey).
    replace (Nat.eqb (endIndex y) i) with false.
    2:{ symmetry. apply Nat.eqb_neq. rewrite E2. destruct A; [congruence|cbn; lia]. }
    rewrite Ey. apply lacks_app in HX as [_ HX2].
    destruct (IH X2 (endIndex y) Z HX2) as (P & fuel' & i' & E & Hf' & HP).
    { rewrite !length_app in *. cbn [List.length] in *.
      destruct A; [congruence|cbn [List.length] in Hf; lia]. }
    exists P, fuel', i'. now rewrite E.
  - destruct X as [|x X]; cbn [app].
    + exists [], fuel, (S i). cbn [app List.length] in *.
      split; [reflexivity|]. split; [lia|intros []].
    + apply lacks_cons in HX as [Nx HX].
      destruct (IH X (S i) Z HX) as (P & fuel' & i' & E' & Hf' & HP).
      { cbn [app List.length] in Hf. lia. }
      exists (x :: P), fuel', i'. rewrite E'. repeat split; auto.
      now apply lacks_cons.
Qed.

(** Up to a closing brace, units without backtick are kept as they are. *)
Lemma strip_middle M : forall fuel i T,
  lacks backtick M -> (List.length (M ++ chr "}" :: T) < fuel)%nat ->
  exists fuel' i',
    replaceLoop fuel reFence [] i (M ++ chr "}" :: T)
    = M ++ chr "}" :: replaceLoop fuel' reFence [] i' T /\
    (List.length T < fuel')%nat.
Proof.
  induction M as [|x M IH]; intros fuel i T HM Hf;
    (destruct fuel as [|fuel]; [lia|]); cbn [replaceLoop].
  - rewrite (@fence_no_match i [] T HM). cbn [app].
    exists fuel, (S i). split; auto. cbn [app List.length] in Hf. lia.
  - rewrite (@fence_no_match i (x :: M) T HM). cbn [app].
    apply lacks_cons in HM as [_ HM].
    destruct (IH fuel (S i) T HM) as (fuel' & i' & E & Hf').
    { cbn [app List.length] in Hf. lia. }
    exists fuel', i'. now rewrite E.
Qed.

(** Stripping the fences adds no unit. *)
Lemma strip_subset fuel : forall i s u,
  In u (replaceLoop fuel reFence [] i s) -> In u s.
Proof.
  induction fuel as [|fuel IH]; intros i s u H; [exact H|].
  cbn [replaceLoop] in H.
  destruct (matchAt reFence i s) as [y|] eqn:E.
  - apply fence_consumed in E as (A & E1 & _).
    destruct (Nat.eqb (endIndex y) i).
    + destruct s as [|v s]; [exact H|]. cbn in H. destruct H as [H|H]; [now left|].
      right. eapply IH, H.
    + cbn in H. apply IH in H. rewrite E1. apply in_or_app. now right.
  - destruct s as [|v s]; [exact H|]. destruct H as [H|H]; [now left|].
    right. eapply IH, H.
Qed.

Lemma strip_around X M T :
  lacks (chr "{") X -> lacks backtick M -> lacks (chr "}") T ->
  exists P Q,
    replace reFence [] (X ++ chr "{" :: M ++ chr "}" :: T)
    = P ++ chr "{" :: M ++ chr "}" :: Q /\
    lacks (chr "{") P /\ lacks (chr "}") Q.
Proof.
  intros HX HM HT. unfold replace. cbn [global reFence re_g].
  destruct (@strip_prefix (S (List.length (X ++ chr "{" :: M ++ chr "}" :: T)))
              X 0%nat (M ++ chr "}" :: T) HX) as (P & f1 & i1 & E1 & Hf1 & HP); [lia|].
  destruct (@strip_middle M f1 i1 T HM Hf1) as (f2 & i2 & E2 & Hf2).
  exists P, (replaceLoop f2 reFence [] i2 T).
  rewrite E1, E2. repeat split; auto.
  intros I. apply strip_subset in I. contradiction.
Qed.

(** ** Trimming around an object *)

Lemma trimStart_app p X :
  stops isSpace X -> X <> [] ->
  exists p', trimStart (p ++ X) = p' ++ X /\ (forall u, In u p' -> In u p).
Proof.
  intros HX NE. induction p as [|a p IH].
  - exists []. split; [now apply trimStart_stops|tauto].
  - cbn [app trimStart]. destruct (isSpace a).
    + destruct IH as (p' & E & S). exists p'. split; auto. intros u I. right. auto.
    + exists (a :: p). split; auto.
Qed.

Lemma trim_around pre M post :
  exists pre' post',
    trim (pre ++ chr "{" :: M ++ chr "}" :: post)
    = pre' ++ chr "{" :: M ++ chr "}" :: post' /\
    (forall u, In u pre' -> In u pre) /\ (forall u, In u post' -> In u post).
Proof.
  unfold trim, trimEnd.
  destruct (@trimStart_app pre (chr "{" :: M ++ chr "}" :: post))
    as (pre' & E & S); [reflexivity|discriminate|].
  rewrite E.
  replace (pre' ++ chr "{" :: M ++ chr "}" :: post)
    with ((pre' ++ chr "{" :: M ++ [chr "}"]) ++ post)
    by (rewrite <- !app_assoc; cbn; now rewrite <- app_assoc).
  rewrite rev_app_distr.
  destruct (@trimStart_app (rev post) (rev (pre' ++ chr "{" :: M ++ [chr "}"])))
    as (q & E' & S').
  - rewrite rev_app_distr. cbn [rev]. rewrite rev_app_distr. reflexivity.
  - intros N. apply (f_equal (@List.length _)) in N.
    rewrite length_rev, length_app in N. cbn in N. lia.
  - rewrite E', rev_app_distr, rev_involutive.
    exists pre', (rev q). split.
    + rewrite <- !app_assoc. cbn. now rewrite <- app_assoc.
    + split; auto. intros u I. apply in_rev in I. apply S' in I. now apply in_rev.
Qed.

(** ** Finding the object *)

Lemma execFrom_skip R P : forall i T,
  (forall P1 u P2, P = P1 ++ u :: P2 ->
     matchAt R (i + List.length P1) (u :: P2 ++ T) = None) ->
  execFrom R i (P ++ T) = execFrom R (i + List.length P) T.
Proof.
  induction P as [|a P IH]; intros i T H.
  - cbn. now rewrite Nat.add_0_r.
  - cbn [app execFrom]. pose proof (H [] a P eq_refl) as H0.
    cbn in H0. rewrite Nat.add_0_r in H0. rewrite H0.
    rewrite IH.
    + f_equal. cbn. lia.
    + intros P1 u P2 E. specialize (H (a :: P1) u P2).
      replace (S i + List.length P1)%nat with (i + List.length (a :: P1))%nat by (cbn; lia).
      apply H. now rewrite E.
Qed.

Lemma any_unit u : charMatches false (union isSpace (negate isSpace)) u = true.
Proof.
  rewrite charMatches_plain. unfold union, negate. now destruct (isSpace u).
Qed.

Lemma all_any s : all (charMatches false (union isSpace (negate isSpace))) s.
Proof. induction s; constructor; auto using any_unit. Qed.

(** The text from the first opening brace to the last closing one. *)
Lemma jsonObject_found P M Q :
  lacks (chr "{") P -> lacks (chr "}") Q ->
  exists jm, exec reJsonObject (P ++ chr "{" :: M ++ chr "}" :: Q) = Some jm /\
             matched jm = chr "{" :: M ++ [chr "}"].
Proof.
  intros HP HQ. unfold exec. rewrite execFrom_skip.
  2:{ intros P1 u P2 E. unfold matchAt, reJsonObject, re. cbn [pattern ignoreCase seq].
      rewrite m_Seq. apply m_Char_stops. apply stops_plain. cbn.
      apply N.eqb_neq. intros ->. apply HP. rewrite E. apply in_or_app. right. now left. }
  set (i := (0 + List.length P)%nat).
  assert (E : matchAt reJsonObject i (chr "{" :: M ++ chr "}" :: Q)
              = Some (mkState (i + 1 + List.length M + 1) (Q ++ []) [])).
  { unfold matchAt, reJsonObject, re. cbn [pattern ignoreCase seq]. unfold ch.
    rewrite m_Seq, m_Char_cons. char_test. rewrite m_Seq.
    replace (M ++ chr "}" :: Q) with (M ++ (chr "}" :: Q) ++ []) by now rewrite app_nil_r.
    apply star_greedy.
    - apply all_any.
    - apply all_any.
    - exact I.
    - cbn [app]. rewrite m_Char_cons. char_test. reflexivity.
    - intros B1 B2 E NE. apply m_Char_stops. apply stops_plain.
      destruct B1 as [|b B1]; [congruence|]. inversion E; subst.
      apply lacks_app in HQ as [_ HQ]. destruct B2 as [|v B2]; cbn; auto.
      apply N.eqb_neq. intros ->. apply HQ. now left. }
  rewrite (execFrom_hit _ _ _ E). eexists. split; [reflexivity|].
  cbn [matched endIndex].
  replace (i + 1 + List.length M + 1 - i)%nat with (S (List.length M + 1)) by lia.
  cbn [firstn]. f_equal.
  replace (List.length M + 1)%nat with (List.length (M ++ [chr "}"]) + 0)%nat
    by (rewrite length_app; cbn; lia).
  replace (M ++ chr "}" :: Q) with ((M ++ [chr "}"]) ++ Q) by now rewrite <- app_assoc.
  rewrite firstn_app_2. cbn. now rewrite app_nil_r.
Qed.

(** ** The character-level repairs *)

(** A pattern of two literal units. *)
Lemma matchAt_pair a b g i s :
  matchAt (mkRegExp (Seq (Char (Regex.unit a)) (Char (Regex.unit b))) false g) i s
  = match s with
    | u :: v :: T =>
      if ((u =? a) && (v =? b))%N then Some (mkState (i + 1 + 1) T []) else None
    | _ => None
    end.
Proof.
  unfold matchAt. cbn [pattern ignoreCase]. rewrite m_Seq.
  destruct s as [|u [|v T]]; [reflexivity| |].
  - rewrite m_Char_cons, charMatches_plain. unfold Regex.unit.
    destruct (u =? a)%N; reflexivity.
  - rewrite m_Char_cons, charMatches_plain. unfold Regex.unit at 1.
    destruct (u =? a)%N; [|reflexivity].
    rewrite m_Char_cons, charMatches_plain. unfold Regex.unit.
    destruct (v =? b)%N; reflexivity.
Qed.

(** Replacing a pair by itself changes nothing. *)
Lemma replace_pair_same a b fuel : forall i s,
  (List.length s < fuel)%nat ->
  replaceLoop fuel (mkRegExp (Seq (Char (Regex.unit a)) (Char (Regex.unit b))) false true)
    [a; b] i s = s.
Proof.
  induction fuel as [|fuel IH]; intros i s Hf; [lia|].
  cbn [replaceLoop]. rewrite matchAt_pair.
  destruct s as [|u [|v T]]; [reflexivity| |].
  - rewrite IH; [reflexivity|cbn in *; lia].
  - destruct ((u =? a) && (v =? b))%N eqn:E.
    + apply andb_prop in E as [Eu Ev]. apply N.eqb_eq in Eu, Ev. subst u v.
      cbn [endIndex rest]. replace (Nat.eqb (i + 1 + 1) i) with false
        by (symmetry; apply Nat.eqb_neq; lia).
      rewrite IH; [reflexivity|cbn in *; lia].
    + rewrite IH; [reflexivity|cbn in *; lia].
Qed.

(** Where the pair does not occur, nothing is replaced. *)
Lemma replace_pair_absent a b repl fuel : forall i s,
  includes s [a; b] = false ->
  replaceLoop fuel (mkRegExp (Seq (Char (Regex.unit a)) (Char (Regex.unit b))) false true)
    repl i s = s.
Proof.
  induction fuel as [|fuel IH]; intros i s H; [reflexivity|].
  cbn [replaceLoop]. rewrite matchAt_pair.
  destruct s as [|u s]; [reflexivity|].
  cbn [includes] in H. apply orb_false_elim in H as [H1 H2].
  assert (N : match s with
              | v :: T => if ((u =? a) && (v =? b))%N
                          then Some (mkState (i + 1 + 1) T []) else None
              | [] => None
              end = None).
  { destruct s as [|v T]; [reflexivity|]. cbn [startsWith] in H1.
    rewrite andb_true_r in H1. rewrite (N.eqb_sym u a), (N.eqb_sym v b), H1. reflexivity. }
  rewrite N, IH; auto.
Qed.

Lemma repairJson_id s :
  includes s [backslash; dq] = false -> repairJson s = s.
Proof.
  intros H. unfold repairJson, pipeline. cbn [fold_left].
  assert (Q : replace reEscapedQuote [dq] s = s).
  { unfold replace. cbn [global reEscapedQuote re_g].
    change (mkRegExp (seq [ch "\"; quote]) false true)
      with (mkRegExp (Seq (Char (Regex.unit backslash)) (Char (Regex.unit dq))) false true).
    now apply replace_pair_absent. }
  assert (S : forall c r, r = mkRegExp (Seq (Char (Regex.unit backslash)) (Char (Regex.unit c))) false true ->
              forall t, replace r [backslash; c] t = t).
  { intros c r -> t. unfold replace. cbn [global]. apply replace_pair_same. lia. }
  rewrite Q.
  rewrite (S (chr "n") reEscapedN eq_refl).
  rewrite (S (chr "t") reEscapedT eq_refl).
  rewrite (S (chr "r") reEscapedR eq_refl).
  reflexivity.
Qed.

(** ** The normaliser *)

(** C8 (amended). Let the text of a JSON object, from its opening to its
    closing brace, hold no backtick and no backslash followed by a double
    quote; let it stand in a response, inside a code fence or not, after a
    text without opening brace and before a text without closing brace.
    Then the extraction parses exactly the text of the object: it returns
    what [JSON.parse] returns on that text alone. *)
Theorem normalizer_round_trip (JSON_parse : jsstring -> option jsval)
  (before inside after : jsstring) :
  let object := utf16 "{" ++ inside ++ utf16 "}" in
  lacks (chr "{") before ->
  lacks (chr "}") after ->
  lacks backtick inside ->
  includes object [backslash; dq] = false ->
  extractJson JSON_parse (before ++ object ++ after) = JSON_parse object.
Proof.
  cbv zeta. change (utf16 "{") with [chr "{"]. change (utf16 "}") with [chr "}"].
  intros Hb Ha Hi He. unfold extractJson, stripFences.
  replace (before ++ ([chr "{"] ++ inside ++ [chr "}"]) ++ after)
    with (before ++ chr "{" :: inside ++ chr "}" :: after)
    by (cbn; now rewrite <- app_assoc).
  destruct (trim_around before inside after) as (b' & a' & -> & Sb & Sa).
  destruct (@strip_around b' inside a') as (P & Q & -> & HP & HQ); auto.
  { intros I. apply Hb. auto. }
  { intros I. apply Ha. auto. }
  destruct (@jsonObject_found P inside Q HP HQ) as (jm & -> & ->).
  change (chr "{" :: inside ++ [chr "}"]) with ([chr "{"] ++ inside ++ [chr "}"]).
  now rewrite repairJson_id.
Qed.

Lemma normalizer_round_trip_witness :
  extractJson Reference.JSON_parse
    ((utf16 "Here is the evaluation:" ++ nl ++ utf16 "```json" ++ nl)
       ++ (utf16 "{" ++ ([dq] ++ utf16 "isCorrect" ++ [dq] ++ utf16 ": true, "
                          ++ [dq] ++ utf16 "confidence" ++ [dq] ++ utf16 ": 0.9")
             ++ utf16 "}")
       ++ (nl ++ utf16 "```" ++ nl ++ utf16 "Hope this helps!"))
  = Some (Obj [(utf16 "isCorrect", Bool true);
               (utf16 "confidence", Num (Fin (9 # 10)))]).
Proof.
  rewrite normalizer_round_trip.
  - vm_compute. reflexivity.
  - vm_compute. intuition discriminate.
  - vm_compute. intuition discriminate.
  - vm_compute. intuition discriminate.
  - vm_compute. reflexivity.
Defined.

(** C8 as stated fails: an object whose string holds an escaped quote is
    well formed, and the repair of escaped quotes turns its text into one
    that [JSON.parse] rejects. *)
Lemma normalizer_loses_escaped_quotes :
  let object := utf16 "{" ++ [dq] ++ utf16 "feedback" ++ [dq] ++ utf16 ": "
                  ++ [dq] ++ utf16 "Say \" ++ [dq] ++ utf16 "hi\" ++ [dq] ++ [dq]
                  ++ utf16 "}" in
  let response := utf16 "Result:" ++ nl ++ utf16 "```json" ++ nl ++ object ++ nl
                    ++ utf16 "```" ++ nl ++ utf16 "Done." in
  Reference.JSON_parse object
  = Some (Obj [(utf16 "feedback", Str (utf16 "Say " ++ [dq] ++ utf16 "hi" ++ [dq]))]) /\
  extractJson Reference.JSON_parse response = None.
Proof. cbv zeta. split; vm_compute; reflexivity. Qed.
